(** * Role-gated routes and the Integrations page store

    A shallow embedding of the two pieces of client logic of the feedback
    dashboard that carry design decisions:

    - [ProtectedRoute] (frontend/src/components/ProtectedRoute.tsx) with the
      route table of App.tsx and the role tests of Profile.tsx and of the
      Integrations page;
    - the Integrations page (pages/Integrations.tsx): [loadIntegrations],
      the persisting effect, [handleToggle], [handleConfigure] and
      [handleSaveConfig].

    JavaScript objects are finite maps from property names to values, the
    browser's localStorage is a finite map from keys to stored strings, and
    code that can throw lives in a small completion monad. *)

From Stdlib Require Import Floats.
From stdpp Require Import gmap strings list fin_maps pretty.

(** ** JavaScript values and the browser *)

Module JS.

(** What [JSON.parse] can return.  Objects are keyed by property name. *)
#[warnings="-register-all"] Inductive json :=
  | JNull
  | JBool (b : bool)
  | JNum (x : float)
  | JStr (s : string)
  | JArr (items : list json)
  | JObj (props : gmap string json).

(** The icon components the page imports from the icon library. *)
Inductive Icon := Webhook | Email | Chat | IntegrationInstructions.

(** A property value of an in-memory object: [undefined], JSON data, or an
    icon component. *)
Inductive value :=
  | Undefined
  | Json (j : json)
  | Component (c : Icon).

(** An in-memory object: the records of the page are such objects. *)
Abbreviation object := (gmap string value).

(** Property read [o.k]: a missing property reads as [undefined]. *)
Definition get (o : object) (k : string) : value :=
  default Undefined (o !! k).

(** [ToBoolean]. *)
Definition truthy_json (j : json) : bool :=
  match j with
  | JNull => false
  | JBool b => b
  | JNum x => negb (PrimFloat.eqb x 0%float || PrimFloat.is_nan x)
  | JStr s => negb (String.eqb s EmptyString)
  | JArr _ | JObj _ => true
  end.

Definition truthy (v : value) : bool :=
  match v with
  | Undefined => false
  | Json j => truthy_json j
  | Component _ => true
  end.

(** [a === b].  Objects, arrays and components are equal only to
    themselves; every comparison of the modelled code has a string on one
    side, and there the answer is [false] for them. *)
Definition strict_eq (a b : value) : bool :=
  match a, b with
  | Undefined, Undefined => true
  | Json JNull, Json JNull => true
  | Json (JBool x), Json (JBool y) => Bool.eqb x y
  | Json (JNum x), Json (JNum y) => PrimFloat.eqb x y
  | Json (JStr x), Json (JStr y) => String.eqb x y
  | _, _ => false
  end.

(** [Array.prototype.includes] on an array of strings. *)
Definition includes (l : list string) (s : string) : bool :=
  existsb (String.eqb s) l.

(** Completions: a call returns normally or throws. *)
Inductive Error := SyntaxError | TypeError.

Inductive completion (A : Type) :=
  | Normal (a : A)
  | Throw (e : Error).
Arguments Normal {A} a.
Arguments Throw {A} e.

#[global] Instance completion_ret : MRet completion := @Normal.
#[global] Instance completion_fmap : FMap completion := λ A B f c,
  match c with
  | Normal a => Normal (f a)
  | Throw e => Throw e
  end.
#[global] Instance completion_bind : MBind completion := λ A B k c,
  match c with
  | Normal a => k a
  | Throw e => Throw e
  end.

(** Property read [i.k] on a parsed value: reading a property of [null]
    throws, primitives and arrays have no named property, an object
    answers with its own. *)
Definition prop (i : json) (k : string) : completion value :=
  match i with
  | JNull => Throw TypeError
  | JObj props => Normal (from_option Json Undefined (props !! k))
  | _ => Normal Undefined
  end.

(** Own enumerable properties, as copied by an object spread [{...j}]:
    those of an object, the indices of an array or of a string, none for
    the other primitives. *)
Definition indexed {A} (l : list A) : gmap string A :=
  list_to_map (imap (λ (n : nat) x, (pretty n, x)) l).

Definition own_props (j : json) : gmap string json :=
  match j with
  | JObj props => props
  | JArr items => indexed items
  | JStr s => indexed ((λ c, JStr (String c EmptyString)) <$> String.list_ascii_of_string s)
  | _ => ∅
  end.

(** [Array.prototype.find] with the predicate [i => i.id === id]: the
    first element that answers true, [undefined] when there is none; the
    predicate is run on the elements in order and may throw. *)
Fixpoint find_by_id (items : list json) (id : value) : completion (option json) :=
  match items with
  | [] => Normal None
  | i :: rest =>
      v ← prop i "id";
      if strict_eq v id then Normal (Some i) else find_by_id rest id
  end.

(** A string held by localStorage, as far as [JSON.parse] can tell strings
    apart: the empty string, a non-empty string that is not JSON text, and
    a string that is JSON text for the value [j]. *)
Inductive DOMString :=
  | Empty
  | NotJson
  | JsonText (j : json).

(** A string is truthy unless it is empty. *)
Definition truthy_string (s : DOMString) : bool :=
  match s with
  | Empty => false
  | _ => true
  end.

Definition JSON_parse (s : DOMString) : completion json :=
  match s with
  | JsonText j => Normal j
  | Empty | NotJson => Throw SyntaxError
  end.

(** [JSON.stringify] on an array of objects.  A property whose value is
    not data ([undefined], a component) is left out of the text; in the
    text a number that is not finite reads [null] and a negative zero
    reads [0]. *)
Fixpoint jsonify (j : json) : json :=
  match j with
  | JNum x =>
      if PrimFloat.is_finite x
      then JNum (if PrimFloat.eqb x 0%float then 0%float else x)
      else JNull
  | JArr items => JArr (jsonify <$> items)
  | JObj props => JObj (jsonify <$> props)
  | _ => j
  end.

Definition to_json (v : value) : option json :=
  match v with
  | Json j => Some (jsonify j)
  | Undefined | Component _ => None
  end.

Definition JSON_stringify (l : list object) : DOMString :=
  JsonText (JArr ((λ o, JObj (omap to_json o)) <$> l)).

(** localStorage: [getItem] answers [null] (here [None]) for a key that was
    never set. *)
Abbreviation Storage := (gmap string DOMString).

Definition getItem (ls : Storage) (k : string) : option DOMString := ls !! k.
Definition setItem (k : string) (s : DOMString) (ls : Storage) : Storage := <[k := s]> ls.

End JS.

Export JS.

(** ** The session principal and the route guard *)

Module Auth.

(** The user held by the auth slice (fields as read by the pages). *)
Record User := {
  id : string;
  username : string;
  email : string;
  full_name : option string;
  role : string;
  requested_role : option string;
  role_approved : bool;
  is_active : bool;
  is_super_admin : bool;
}.

(** What a route element renders to. *)
Inductive Element (N : Type) :=
  | Navigate (to : string) (replace : bool)
  | Fragment (children : N).
Arguments Navigate {N} to replace.
Arguments Fragment {N} children.

(** components/ProtectedRoute.tsx *)
Definition ProtectedRoute {N} (children : N) (allowedRoles : list string)
    (user : option User) : Element N :=
  match user with
  | None => Navigate "/login" true
  | Some u =>
      if negb (includes allowedRoles (role u)) then Navigate "/" true
      else Fragment children
  end.

(** The screens of App.tsx and its route table for an authenticated
    session. *)
Inductive View :=
  | Dashboard | FeedbackList | Analytics | Integrations | Reports | Profile
  | AdminManagement.

Definition routes (path : string) (user : option User) : Element View :=
  if String.eqb path "/" then Fragment Dashboard
  else if String.eqb path "/feedback" then Fragment FeedbackList
  else if String.eqb path "/analytics" then Fragment Analytics
  else if String.eqb path "/integrations" then
    ProtectedRoute Integrations ["admin"; "analyst"] user
  else if String.eqb path "/reports" then Fragment Reports
  else if String.eqb path "/profile" then Fragment Profile
  else if String.eqb path "/admin" then
    ProtectedRoute AdminManagement ["admin"] user
  else Navigate "/" true.

(** pages/Profile.tsx:
    [user?.requested_role === "admin" && !user?.role_approved] *)
Definition hasPendingAdminRequest (user : option User) : bool :=
  match user with
  | Some u =>
      match requested_role u with
      | Some r => String.eqb r "admin" && negb (role_approved u)
      | None => false
      end
  | None => false
  end.

(** pages/Integrations.tsx:
    [user?.role === "admin" || user?.role === "analyst"] *)
Definition canModify (user : option User) : bool :=
  match user with
  | Some u => String.eqb (role u) "admin" || String.eqb (role u) "analyst"
  | None => false
  end.

Definition isViewer (user : option User) : bool :=
  match user with
  | Some u => String.eqb (role u) "viewer"
  | None => false
  end.

(** The access predicate in the specification's words: a principal is
    present and its role is one of the rule's allowed roles. *)
Definition canAccess (principal : option User) (allowedRoles : list string) : bool :=
  match principal with
  | Some u => bool_decide (role u ∈ allowedRoles)
  | None => false
  end.

End Auth.

(** ** The Integrations page (pages/Integrations.tsx) *)

Module Page.

(** The default integrations template.  Every entry carries the fields of
    the [Integration] interface; only the e-mail entry has a [config]. *)
Definition defaultIntegrations : list object := [
  {[ "id" := Json (JStr "slack");
     "name" := Json (JStr "Slack");
     "description" := Json (JStr "Get feedback notifications in Slack channels");
     "icon" := Component Chat;
     "enabled" := Json (JBool false);
     "status" := Json (JStr "disconnected") ]};
  {[ "id" := Json (JStr "teams");
     "name" := Json (JStr "Microsoft Teams");
     "description" := Json (JStr "Send feedback alerts to Teams channels");
     "icon" := Component Chat;
     "enabled" := Json (JBool false);
     "status" := Json (JStr "disconnected") ]};
  {[ "id" := Json (JStr "email");
     "name" := Json (JStr "Email Notifications");
     "description" := Json (JStr "Receive email alerts for critical feedback");
     "icon" := Component Email;
     "enabled" := Json (JBool true);
     "status" := Json (JStr "connected");
     "config" := Json (JObj {[ "email" := JStr "team@example.com" ]}) ]};
  {[ "id" := Json (JStr "webhook");
     "name" := Json (JStr "Custom Webhook");
     "description" := Json (JStr "Send feedback to your custom endpoint");
     "icon" := Component Webhook;
     "enabled" := Json (JBool false);
     "status" := Json (JStr "disconnected") ]};
  {[ "id" := Json (JStr "zapier");
     "name" := Json (JStr "Zapier");
     "description" := Json (JStr "Connect to 5000+ apps via Zapier");
     "icon" := Component IntegrationInstructions;
     "enabled" := Json (JBool false);
     "status" := Json (JStr "disconnected") ]}
].

(** [{ ...def, ...saved, icon: def.icon }] *)
Definition merge (def : object) (saved : json) : object :=
  <["icon" := get def "icon"]> ((Json <$> own_props saved) ∪ def).

(** [parsedIntegrations.find((i) => i.id === def.id)]: calling [find] on
    anything but an array throws. *)
Definition find_saved (parsedIntegrations : json) (def : object) : completion (option json) :=
  match parsedIntegrations with
  | JArr items => find_by_id items (get def "id")
  | _ => Throw TypeError
  end.

(** The callback of [defaultIntegrations.map]:
    [saved ? { ...def, ...saved, icon: def.icon } : def] for the record
    found for [def]. *)
Definition from_saved (parsedIntegrations : json) (def : object) : completion object :=
  saved ← find_saved parsedIntegrations def;
  mret (match saved with
        | Some s => if truthy_json s then merge def s else def
        | None => def
        end).

(** [loadIntegrations]: the body of the [try] block answers [Some] list
    when it reaches its [return], [None] when [saved] is falsy; whatever it
    throws is caught (and logged to the console), and in both of these
    cases the function returns the defaults. *)
Definition loadIntegrations (localStorage : Storage) : completion (list object) :=
  let attempt : completion (option (list object)) :=
    match getItem localStorage "integrations_config" with
    | Some saved =>
        if truthy_string saved then
          parsedIntegrations ← JSON_parse saved;
          merged ← mapM (from_saved parsedIntegrations) defaultIntegrations;
          mret (Some merged)
        else mret None
    | None => mret None
    end in
  match attempt with
  | Normal (Some merged) => Normal merged
  | Normal None | Throw _ => Normal defaultIntegrations
  end.

(** The state of the page: the session user it selects from the store, its
    five [useState] cells, and the browser's localStorage. *)
Record State := {
  user : option Auth.User;
  integrations : list object;
  configDialogOpen : bool;
  selectedIntegration : option object;
  configValues : value;
  testResult : option string;
  localStorage : Storage;
}.

Definition setIntegrations (f : list object → list object) (st : State) : State :=
  {| user := user st; integrations := f (integrations st);
     configDialogOpen := configDialogOpen st;
     selectedIntegration := selectedIntegration st;
     configValues := configValues st; testResult := testResult st;
     localStorage := localStorage st |}.

Definition setConfigDialogOpen (b : bool) (st : State) : State :=
  {| user := user st; integrations := integrations st;
     configDialogOpen := b;
     selectedIntegration := selectedIntegration st;
     configValues := configValues st; testResult := testResult st;
     localStorage := localStorage st |}.

Definition setSelectedIntegration (s : option object) (st : State) : State :=
  {| user := user st; integrations := integrations st;
     configDialogOpen := configDialogOpen st;
     selectedIntegration := s;
     configValues := configValues st; testResult := testResult st;
     localStorage := localStorage st |}.

Definition setConfigValues (v : value) (st : State) : State :=
  {| user := user st; integrations := integrations st;
     configDialogOpen := configDialogOpen st;
     selectedIntegration := selectedIntegration st;
     configValues := v; testResult := testResult st;
     localStorage := localStorage st |}.

Definition setTestResult (r : option string) (st : State) : State :=
  {| user := user st; integrations := integrations st;
     configDialogOpen := configDialogOpen st;
     selectedIntegration := selectedIntegration st;
     configValues := configValues st; testResult := r;
     localStorage := localStorage st |}.

Definition setLocalStorage (ls : Storage) (st : State) : State :=
  {| user := user st; integrations := integrations st;
     configDialogOpen := configDialogOpen st;
     selectedIntegration := selectedIntegration st;
     configValues := configValues st; testResult := testResult st;
     localStorage := ls |}.

Definition setUser (u : option Auth.User) (st : State) : State :=
  {| user := u; integrations := integrations st;
     configDialogOpen := configDialogOpen st;
     selectedIntegration := selectedIntegration st;
     configValues := configValues st; testResult := testResult st;
     localStorage := localStorage st |}.

(** The effect that saves the integrations whenever they change:
    [integrations.map(({ icon, ...rest }) => rest)] is written under the
    one key.  (A failing write is caught and logged; the store modelled
    here accepts every write.) *)
Definition dataToSave (integrations : list object) : list object :=
  (λ integration, delete "icon" integration) <$> integrations.

Definition persist (st : State) : State :=
  setLocalStorage
    (setItem "integrations_config" (JSON_stringify (dataToSave (integrations st)))
       (localStorage st))
    st.

(** The first render: [useState(loadIntegrations())] and the initial
    values of the other cells, then the effect. *)
Definition mount (u : option Auth.User) (ls : Storage) : completion State :=
  loaded ← loadIntegrations ls;
  mret (persist {| user := u; integrations := loaded;
                   configDialogOpen := false; selectedIntegration := None;
                   configValues := Json (JObj ∅); testResult := None;
                   localStorage := ls |}).

(** [handleToggle].  [toggled] is the callback of its [prev.map]:
    [integration.id === integrationId
       ? { ...integration, enabled: !integration.enabled } : integration]. *)
Definition toggled (integrationId : string) (integration : object) : object :=
  if strict_eq (get integration "id") (Json (JStr integrationId))
  then <["enabled" := Json (JBool (negb (truthy (get integration "enabled"))))]> integration
  else integration.

Definition handleToggle (integrationId : string) (st : State) : completion State :=
  mret (setIntegrations (λ prev, toggled integrationId <$> prev) st).

(** [handleConfigure]: the dialog opens on the integration, with
    [integration.config || {}] as its values and no test result. *)
Definition handleConfigure (integration : object) (st : State) : completion State :=
  mret (setTestResult None
         (setConfigDialogOpen true
           (setConfigValues
              (if truthy (get integration "config") then get integration "config"
               else Json (JObj ∅))
              (setSelectedIntegration (Some integration) st)))).

(** [handleSaveConfig].  [configured] is the callback of its [prev.map]:
    [integration.id === selectedIntegration.id
       ? { ...integration, config: configValues, status: "connected",
           enabled: true }
       : integration]; nothing happens without a selected integration. *)
Definition configured (selected : object) (configValues : value) (integration : object) : object :=
  if strict_eq (get integration "id") (get selected "id")
  then <["enabled" := Json (JBool true)]>
         (<["status" := Json (JStr "connected")]>
            (<["config" := configValues]> integration))
  else integration.

Definition handleSaveConfig (st : State) : completion State :=
  match selectedIntegration st with
  | Some selected =>
      mret (setSelectedIntegration None
             (setConfigDialogOpen false
               (setIntegrations
                  (λ prev, configured selected (configValues st) <$> prev) st)))
  | None => mret st
  end.

(** [handleTestConnection]: after the timeout the result is set. *)
Definition handleTestConnection (st : State) : completion State :=
  mret (setTestResult
          (Some "Connection successful! Integration is working properly.") st).

(** The events of the page and what each runs.  The effect follows every
    call of [setIntegrations]. *)
Inductive Event :=
  | SwitchChange (integrationId : string)
  | ConfigureClick (integration : object)
  | ConfigValuesChange (v : value)
  | TestConnectionClick
  | SaveClick
  | DialogClose.

Definition dispatch (e : Event) (st : State) : completion State :=
  match e with
  | SwitchChange integrationId => persist <$> handleToggle integrationId st
  | ConfigureClick integration => handleConfigure integration st
  | ConfigValuesChange v => mret (setConfigValues v st)
  | TestConnectionClick => handleTestConnection st
  | SaveClick =>
      match selectedIntegration st with
      | Some _ => persist <$> handleSaveConfig st
      | None => handleSaveConfig st
      end
  | DialogClose => mret (setConfigDialogOpen false st)
  end.

(** The controls of a card: the switch and the Configure button. *)
Record Controls := {
  switch_checked : value;
  switch_disabled : bool;
  configure_disabled : bool;
}.

Definition card_controls (u : option Auth.User) (integration : object) : Controls :=
  {| switch_checked := get integration "enabled";
     switch_disabled := negb (Auth.canModify u);
     configure_disabled := negb (Auth.canModify u) |}.

(** The sequence of events behind one configuration of an integration:
    Configure on its card, the values typed into the dialog, Save. *)
Definition configure (integration : object) (values : value) (st : State) : completion State :=
  st1 ← dispatch (ConfigureClick integration) st;
  st2 ← dispatch (ConfigValuesChange values) st1;
  dispatch SaveClick st2.

(** *** Well-formed records *)

#[global] Instance Icon_eq_dec : EqDecision Icon.
Proof. solve_decision. Defined.

Definition is_string (v : value) : bool :=
  match v with Json (JStr _) => true | _ => false end.

Definition is_boolean (v : value) : bool :=
  match v with Json (JBool _) => true | _ => false end.

Definition is_status (v : value) : bool :=
  match v with
  | Json (JStr s) => bool_decide (s ∈ ["connected"; "disconnected"; "error"])
  | _ => false
  end.

Definition is_data (v : value) : bool :=
  match v with Json _ => true | _ => false end.

(** The [Integration] interface: the required fields with their types, an
    optional [config], and no other field. *)
Definition Integration_fields : gset string :=
  {[ "id"; "name"; "description"; "icon"; "enabled"; "status"; "config" ]}.

Definition is_Integration (o : object) : bool :=
  is_string (get o "id") && is_string (get o "name")
  && is_string (get o "description")
  && bool_decide (is_Some (o !! "icon"))
  && is_boolean (get o "enabled") && is_status (get o "status")
  && from_option is_data true (o !! "config")
  && bool_decide (dom o ⊆ Integration_fields).

(** Plain data: a string, a boolean, [null], or an object whose
    properties are strings (as a [config] is). *)
Definition is_JStr (j : json) : bool :=
  match j with JStr _ => true | _ => false end.

Definition is_plain (v : value) : bool :=
  match v with
  | Json (JStr _) | Json (JBool _) | Json JNull => true
  | Json (JObj props) =>
      bool_decide (map_Forall (λ _ x, is_JStr x = true) props)
  | _ => false
  end.

(** A record [o] stands for the descriptor [def]: it has the descriptor's
    id and icon, every field the descriptor has, and nothing but plain
    data outside its icon. *)
Definition same_component (a b : value) : bool :=
  match a, b with
  | Component x, Component y => bool_decide (x = y)
  | _, _ => false
  end.

Definition tracks (def o : object) : bool :=
  strict_eq (get o "id") (get def "id")
  && same_component (get o "icon") (get def "icon")
  && bool_decide (dom def ⊆ dom o)
  && bool_decide (map_Forall (λ k v, k = "icon" ∨ is_plain v = true) o).

(** One record per descriptor of the template, in the template's order. *)
Definition mirrors_template (l : list object) : Prop :=
  Forall2 (λ def o, tracks def o = true) defaultIntegrations l.

(** The first record with a given id in an array of stored records: the
    one [find] answers with. *)
Definition first_with_id (records : list (gmap string json)) (s : string)
    (n : nat) (r : gmap string json) : Prop :=
  records !! n = Some r ∧ r !! "id" = Some (JStr s)
  ∧ ∀ m r', records !! m = Some r' → m < n → r' !! "id" ≠ Some (JStr s).

(** The events the rendered page can raise: Configure is clicked on the
    card of one of its records, and the fields of the dialog hold plain
    data. *)
Definition raised_by (st : State) (e : Event) : Prop :=
  match e with
  | ConfigureClick integration => integration ∈ integrations st
  | ConfigValuesChange v => is_plain v = true
  | _ => True
  end.

(** The pages reached from a page through such events. *)
Inductive reaches : State → State → Prop :=
  | reaches_here (st : State) : reaches st st
  | reaches_event (st st1 st2 : State) (e : Event) :
      raised_by st e → dispatch e st = Normal st1 → reaches st1 st2 →
      reaches st st2.

(** A settled page: its records mirror the template, its dialog holds
    plain data, and the stored text is the one its records were last
    written to. *)
Definition settled (st : State) : Prop :=
  mirrors_template (integrations st)
  ∧ is_plain (configValues st) = true
  ∧ getItem (localStorage st) "integrations_config"
    = Some (JSON_stringify (dataToSave (integrations st))).

(** The ids of the template. *)
Definition template_ids : list string :=
  ["slack"; "teams"; "email"; "webhook"; "zapier"].

End Page.

(** ** Sample data *)

Module Sample.

Import Auth Page.

(** A signed-up user who asked for the admin role and was not approved,
    and holds the admin role all the same. *)
Definition pending_admin : User :=
  {| id := "7"; username := "dana"; email := "dana@example.com";
     full_name := None; role := "admin"; requested_role := Some "admin";
     role_approved := false; is_active := true; is_super_admin := false |}.

(** The same request held by a viewer. *)
Definition pending_viewer : User :=
  {| id := "8"; username := "lee"; email := "lee@example.com";
     full_name := None; role := "viewer"; requested_role := Some "admin";
     role_approved := false; is_active := true; is_super_admin := false |}.

Definition analyst : User :=
  {| id := "9"; username := "kim"; email := "kim@example.com";
     full_name := None; role := "analyst"; requested_role := None;
     role_approved := true; is_active := true; is_super_admin := false |}.

(** A page for [u] showing the records [l] over the storage [ls], with
    its dialog closed. *)
Definition page (u : option User) (l : list object) (ls : Storage) : State :=
  {| user := u; integrations := l; configDialogOpen := false;
     selectedIntegration := None; configValues := Json (JObj ∅);
     testResult := None; localStorage := ls |}.

(** The page over the template, with nothing stored. *)
Definition fresh : State := page (Some analyst) defaultIntegrations ∅.

(** A page holding the Slack record alone. *)
Definition slack_only : State :=
  page (Some analyst) (take 1 defaultIntegrations) ∅.

(** A stored catalog whose Slack record carries another display name. *)
Definition renamed : Storage :=
  {[ "integrations_config" :=
       JsonText (JArr [JObj {[ "id" := JStr "slack"; "name" := JStr "Renamed" ]}]) ]}.

(** Stored text that is not JSON. *)
Definition garbled : Storage := {[ "integrations_config" := NotJson ]}.

(** A store holding the text [s] under the key of the page. *)
Definition holding (s : DOMString) : Storage := {[ "integrations_config" := s ]}.

(** The Slack record with its switch on, followed by a [null]. *)
Definition slack_then_null : json :=
  JArr [JObj {[ "id" := JStr "slack"; "enabled" := JBool true ]}; JNull].

(** A page after use: Slack configured with a webhook, e-mail switched
    off; nothing stored yet. *)
Definition edited : State :=
  page (Some analyst)
    (toggled "email"
       <$> (configured (default ∅ (defaultIntegrations !! 0))
              (Json (JObj {[ "webhookUrl" := JStr "https://hooks.example/T1" ]}))
              <$> defaultIntegrations))
    ∅.

End Sample.

(** ** The controls of the Integrations page *)

Module UI.

Import Page.

(** [Object.keys(v).length]: [undefined] and [null] have no keys to ask
    for, the other values answer with their own enumerable properties (an
    icon component is never held as a config and is given none). *)
Definition keys_length (v : value) : completion nat :=
  match v with
  | Undefined | Json JNull => Throw TypeError
  | Json j => Normal (size (own_props j))
  | Component _ => Normal 0
  end.

(** [{ ...configValues, [key]: text }], the value a text field of the
    dialog sets on change. *)
Definition with_field (configValues : value) (key text : string) : value :=
  Json (JObj (<[key := JStr text]>
                (match configValues with
                 | Json j => own_props j
                 | Undefined | Component _ => ∅
                 end))).

(** The fields of the dialog, by the id of the selected integration. *)
Definition dialog_fields (selectedIntegration : option object) : list string :=
  match selectedIntegration with
  | None => []
  | Some selected =>
      let shown (id : string) (fields : list string) :=
        if strict_eq (get selected "id") (Json (JStr id)) then fields else [] in
      shown "slack" ["webhookUrl"; "channel"]
      ++ shown "teams" ["webhookUrl"]
      ++ shown "email" ["email"; "frequency"]
      ++ shown "webhook" ["url"; "secret"]
      ++ shown "zapier" ["zapierUrl"]
  end.

(** The events the rendered page offers.  The switch and the Configure
    button of a card are disabled unless [canModify]; the fields, Test
    Connection, Save and Cancel live in the dialog, and Test Connection
    and Save are disabled while the values have no key.  (The cards are
    kept clickable under the open dialog, which only adds events.) *)
Inductive offered (st : State) : Event → Prop :=
  | offered_switch (integration : object) (id : string) :
      integration ∈ integrations st →
      get integration "id" = Json (JStr id) →
      Auth.canModify (user st) = true →
      offered st (SwitchChange id)
  | offered_configure (integration : object) :
      integration ∈ integrations st →
      Auth.canModify (user st) = true →
      offered st (ConfigureClick integration)
  | offered_field (key text : string) :
      configDialogOpen st = true →
      key ∈ dialog_fields (selectedIntegration st) →
      offered st (ConfigValuesChange (with_field (configValues st) key text))
  | offered_test (n : nat) :
      configDialogOpen st = true →
      keys_length (configValues st) = Normal (S n) →
      offered st TestConnectionClick
  | offered_save (n : nat) :
      configDialogOpen st = true →
      keys_length (configValues st) = Normal (S n) →
      offered st SaveClick
  | offered_close :
      configDialogOpen st = true →
      offered st DialogClose.

(** The pages a user can bring about through the controls. *)
Inductive ui_reaches : State → State → Prop :=
  | ui_here (st : State) : ui_reaches st st
  | ui_event (st st1 st2 : State) (e : Event) :
      offered st e → dispatch e st = Normal st1 → ui_reaches st1 st2 →
      ui_reaches st st2.

End UI.

(** ** The navigation menu (components/Layout.tsx) *)

Module Layout.

Import Auth.

(** The icons of the menu entries. *)
Inductive MenuIcon :=
  | DashboardIcon | FeedbackIcon | AnalyticsIcon | IntegrationInstructions
  | Assessment | AdminPanelSettings.

Record MenuItem := {
  text : string;
  icon : MenuIcon;
  path : string;
  roles : list string;
}.

Definition allMenuItems : list MenuItem := [
  {| text := "Dashboard"; icon := DashboardIcon; path := "/";
     roles := ["admin"; "analyst"; "viewer"] |};
  {| text := "Feedback"; icon := FeedbackIcon; path := "/feedback";
     roles := ["admin"; "analyst"; "viewer"] |};
  {| text := "Analytics"; icon := AnalyticsIcon; path := "/analytics";
     roles := ["admin"; "analyst"; "viewer"] |};
  {| text := "Integrations"; icon := IntegrationInstructions;
     path := "/integrations"; roles := ["admin"; "analyst"] |};
  {| text := "Reports"; icon := Assessment; path := "/reports";
     roles := ["admin"; "analyst"; "viewer"] |}
].

Definition adminMenuItem : MenuItem :=
  {| text := "Admin"; icon := AdminPanelSettings; path := "/admin";
     roles := ["admin"] |}.

(** [user?.role || "viewer"]: no user and an empty role both read as
    viewer. *)
Definition role_or_viewer (user : option User) : string :=
  match user with
  | Some u => if String.eqb (role u) EmptyString then "viewer" else role u
  | None => "viewer"
  end.

(** [allMenuItems.filter((item) => item.roles.includes(user?.role || "viewer"))] *)
Definition baseMenuItems (user : option User) : list MenuItem :=
  List.filter (λ item, includes (roles item) (role_or_viewer user)) allMenuItems.

(** [user?.role === "admin" ? [...baseMenuItems, admin entry] : baseMenuItems] *)
Definition menuItems (user : option User) : list MenuItem :=
  if match user with
     | Some u => String.eqb (role u) "admin"
     | None => false
     end
  then baseMenuItems user ++ [adminMenuItem]
  else baseMenuItems user.

End Layout.

(** ** The application shell (App.tsx) *)

Module App.

Import Auth.

Inductive PublicView := Login | Signup.

(** What [App] renders: the loading box, the public route table, or the
    layout around the route table of a signed-in session. *)
Inductive Screen :=
  | Loading
  | Public (e : Element PublicView)
  | Private (e : Element View).

(** [loading] and [isAuthenticated] are what the [useAuth] hook answers;
    [user] is the user of the store, [path] the location.  Paths are
    compared as written. *)
Definition App (loading isAuthenticated : bool) (user : option User)
    (path : string) : Screen :=
  if loading then Loading
  else if negb isAuthenticated then
    Public (if String.eqb path "/login" then Fragment Login
            else if String.eqb path "/signup" then Fragment Signup
            else Navigate "/login" true)
  else Private (routes path user).

(** Following the redirects of a loaded application from a path, at most
    [fuel] of them, down to the view that is shown. *)
Fixpoint settle (fuel : nat) (isAuthenticated : bool) (user : option User)
    (path : string) : option (PublicView + View) :=
  match App false isAuthenticated user path with
  | Loading => None
  | Public (Fragment v) => Some (inl v)
  | Private (Fragment v) => Some (inr v)
  | Public (Navigate to _) | Private (Navigate to _) =>
      match fuel with
      | 0 => None
      | S fuel' => settle fuel' isAuthenticated user to
      end
  end.

End App.

(** ** The profile page (pages/Profile.tsx) *)

Module Profile.

(** What the server answers to a call: it resolves, or it rejects and
    [err.response?.data?.detail] reads as [detail] ([undefined] when the
    error carries none). *)
Inductive Response := Resolved | Rejected (detail : value).

(** The calls of the page to the users API. *)
Inductive Call :=
  | updateProfile (data : gmap string string)
  | changePassword (current_password new_password : string).

Record PasswordData := {
  currentPassword : string;
  newPassword : string;
  confirmPassword : string;
}.

(** The session user and the cells of the page.  The two error cells
    hold whatever the handlers set them to: a message, or the detail of
    a rejection. *)
Record State := {
  user : option Auth.User;
  editing : bool;
  saveSuccess : bool;
  error : value;
  passwordError : value;
  passwordSuccess : bool;
  formData : gmap string string;
  passwordData : PasswordData;
}.

(** [a || b] on strings, and [detail || message]. *)
Definition or_string (a : option string) (b : string) : string :=
  match a with
  | Some s => if String.eqb s EmptyString then b else s
  | None => b
  end.

Definition or_message (detail : value) (message : string) : value :=
  if truthy detail then detail else Json (JStr message).

(** The first values of the form:
    [user?.full_name || user?.username || "User"] and so on. *)
Definition initialFormData (user : option Auth.User) : gmap string string :=
  {[ "name" := or_string (user ≫= Auth.full_name)
                 (or_string (Auth.username <$> user) "User");
     "email" := or_string (Auth.email <$> user) "user@example.com";
     "company" := "My Company";
     "role" := or_string (Auth.role <$> user) "viewer" ]}.

Definition initialState (user : option Auth.User) : State :=
  {| user := user; editing := false; saveSuccess := false;
     error := Json (JStr EmptyString);
     passwordError := Json (JStr EmptyString); passwordSuccess := false;
     formData := initialFormData user;
     passwordData := {| currentPassword := EmptyString;
                        newPassword := EmptyString;
                        confirmPassword := EmptyString |} |}.

Definition setPasswordError (v : value) (st : State) : State :=
  {| user := user st; editing := editing st; saveSuccess := saveSuccess st;
     error := error st; passwordError := v;
     passwordSuccess := passwordSuccess st; formData := formData st;
     passwordData := passwordData st |}.

Definition setPasswordSuccess (b : bool) (st : State) : State :=
  {| user := user st; editing := editing st; saveSuccess := saveSuccess st;
     error := error st; passwordError := passwordError st;
     passwordSuccess := b; formData := formData st;
     passwordData := passwordData st |}.

Definition setPasswordData (d : PasswordData) (st : State) : State :=
  {| user := user st; editing := editing st; saveSuccess := saveSuccess st;
     error := error st; passwordError := passwordError st;
     passwordSuccess := passwordSuccess st; formData := formData st;
     passwordData := d |}.

Definition setError (v : value) (st : State) : State :=
  {| user := user st; editing := editing st; saveSuccess := saveSuccess st;
     error := v; passwordError := passwordError st;
     passwordSuccess := passwordSuccess st; formData := formData st;
     passwordData := passwordData st |}.

Definition setEditing (b : bool) (st : State) : State :=
  {| user := user st; editing := b; saveSuccess := saveSuccess st;
     error := error st; passwordError := passwordError st;
     passwordSuccess := passwordSuccess st; formData := formData st;
     passwordData := passwordData st |}.

Definition setSaveSuccess (b : bool) (st : State) : State :=
  {| user := user st; editing := editing st; saveSuccess := b;
     error := error st; passwordError := passwordError st;
     passwordSuccess := passwordSuccess st; formData := formData st;
     passwordData := passwordData st |}.

Definition setFormData (d : gmap string string) (st : State) : State :=
  {| user := user st; editing := editing st; saveSuccess := saveSuccess st;
     error := error st; passwordError := passwordError st;
     passwordSuccess := passwordSuccess st; formData := d;
     passwordData := passwordData st |}.

(** [handleChange]: [{ ...prev, [field]: value }] *)
Definition handleChange (field value : string) (st : State) : State :=
  setFormData (<[field := value]> (formData st)) st.

(** [handleSave], with the answer of the server to its call.  The calls
    made are returned beside the page.  (Three seconds after a success the
    success flag is cleared again.) *)
Definition handleSave (server : Call → Response) (st : State) : list Call * State :=
  let st1 := setError (Json (JStr EmptyString)) st in
  let call := updateProfile (formData st) in
  match server call with
  | Resolved => ([call], setSaveSuccess true (setEditing false st1))
  | Rejected detail =>
      ([call], setError (or_message detail "Failed to update profile") st1)
  end.

(** [handlePasswordChange].  [length] counts the characters of the typed
    text, one per code unit. *)
Definition handlePasswordChange (server : Call → Response) (st : State) :
    list Call * State :=
  let st1 := setPasswordSuccess false
               (setPasswordError (Json (JStr EmptyString)) st) in
  let data := passwordData st in
  if negb (String.eqb (newPassword data) (confirmPassword data)) then
    ([], setPasswordError (Json (JStr "New passwords do not match")) st1)
  else if String.length (newPassword data) <? 6 then
    ([], setPasswordError
           (Json (JStr "Password must be at least 6 characters")) st1)
  else
    let call := changePassword (currentPassword data) (newPassword data) in
    match server call with
    | Resolved =>
        ([call],
         setPasswordData {| currentPassword := EmptyString;
                            newPassword := EmptyString;
                            confirmPassword := EmptyString |}
           (setPasswordSuccess true st1))
    | Rejected detail =>
        ([call],
         setPasswordError (or_message detail "Failed to change password") st1)
    end.

(** The Update Password button:
    [disabled={!currentPassword || !newPassword || !confirmPassword}] *)
Definition update_password_disabled (st : State) : bool :=
  let data := passwordData st in
  String.eqb (currentPassword data) EmptyString
  || String.eqb (newPassword data) EmptyString
  || String.eqb (confirmPassword data) EmptyString.

End Profile.

(** ** The feedback slice of the store (store/slices/feedbackSlice.ts) *)

Module FeedbackSlice.

Record Feedback := {
  id : string;
  text : string;
  sentiment : string;
  sentiment_score : float;
  emotion : string;
  urgency_level : string;
  urgency_score : float;
  priority_score : float;
  created_at : string;
  customer_name : option string;
  customer_email : option string;
  main_category : option string;
  keywords : option (list string);
}.

Record Filters := {
  filter_sentiment : option string;
  filter_urgency_level : option string;
  filter_status : option string;
}.

Record FeedbackState := {
  items : list Feedback;
  selectedFeedback : option Feedback;
  loading : bool;
  total : float;
  filters : Filters;
}.

Definition initialState : FeedbackState :=
  {| items := []; selectedFeedback := None; loading := false;
     total := 0%float;
     filters := {| filter_sentiment := None; filter_urgency_level := None;
                   filter_status := None |} |}.

(** [items.findIndex((f) => f.id === id)]; [None] stands for [-1]. *)
Fixpoint findIndex (id0 : string) (l : list Feedback) : option nat :=
  match l with
  | [] => None
  | f :: l' => if String.eqb (id f) id0 then Some 0 else S <$> findIndex id0 l'
  end.

(** The reducers. *)
Definition setFeedback (payload : list Feedback) (state : FeedbackState) : FeedbackState :=
  {| items := payload; selectedFeedback := selectedFeedback state;
     loading := loading state; total := total state; filters := filters state |}.

Definition addFeedback (payload : Feedback) (state : FeedbackState) : FeedbackState :=
  {| items := payload :: items state; selectedFeedback := selectedFeedback state;
     loading := loading state; total := (total state + 1)%float;
     filters := filters state |}.

Definition updateFeedback (payload : Feedback) (state : FeedbackState) : FeedbackState :=
  match findIndex (id payload) (items state) with
  | Some index =>
      {| items := <[index := payload]> (items state);
         selectedFeedback := selectedFeedback state;
         loading := loading state; total := total state;
         filters := filters state |}
  | None => state
  end.

Definition setSelectedFeedback (payload : option Feedback) (state : FeedbackState) : FeedbackState :=
  {| items := items state; selectedFeedback := payload;
     loading := loading state; total := total state; filters := filters state |}.

Definition setLoading (payload : bool) (state : FeedbackState) : FeedbackState :=
  {| items := items state; selectedFeedback := selectedFeedback state;
     loading := payload; total := total state; filters := filters state |}.

Definition setFilters (payload : Filters) (state : FeedbackState) : FeedbackState :=
  {| items := items state; selectedFeedback := selectedFeedback state;
     loading := loading state; total := total state; filters := payload |}.

Definition setTotal (payload : float) (state : FeedbackState) : FeedbackState :=
  {| items := items state; selectedFeedback := selectedFeedback state;
     loading := loading state; total := payload; filters := filters state |}.

End FeedbackSlice.

(** * Properties *)

(** ** The route guard *)

Section route_guard.

Import Auth.

Lemma includes_elem_of (l : list string) (s : string) :
  includes l s = bool_decide (s ∈ l).
Proof.
  unfold includes. induction l as [|x l IH]; simpl.
  - reflexivity.
  - rewrite IH. destruct (String.eqb_spec s x) as [->|Hne]; simpl.
    + symmetry. apply bool_decide_eq_true. apply elem_of_cons. by left.
    + apply bool_decide_ext. rewrite elem_of_cons. split; [by right|by intros [?|?]].
Qed.

(** The guard renders its children exactly when the access predicate of
    the specification holds. *)
Lemma ProtectedRoute_renders {N} (children : N) allowedRoles principal :
  ProtectedRoute children allowedRoles principal = Fragment children
  ↔ canAccess principal allowedRoles = true.
Proof.
  unfold ProtectedRoute, canAccess. destruct principal as [u|]; [|done].
  rewrite includes_elem_of. by destruct (bool_decide _).
Qed.

(** The guard reads nothing of the principal but its [role]. *)
Lemma ProtectedRoute_role_only {N} (children : N) allowedRoles (u u' : User) :
  role u = role u' →
  ProtectedRoute children allowedRoles (Some u)
  = ProtectedRoute children allowedRoles (Some u').
Proof. unfold ProtectedRoute. by intros ->. Qed.

(** A viewer who opens [/integrations] is sent to the landing route; an
    analyst sees the page. *)
Lemma integrations_route_by_role :
  routes "/integrations" (Some Sample.pending_viewer) = Navigate "/" true
  ∧ routes "/integrations" (Some Sample.analyst) = Fragment Integrations
  ∧ routes "/integrations" None = Navigate "/login" true.
Proof. by repeat split. Qed.

End route_guard.

(** C4. When the access check denies a navigation the guard redirects in
    two tiers: to the login screen [/login] when there is no principal,
    to the landing route [/] (the dashboard) when the principal's role is
    not among the allowed roles; when the role is allowed the requested
    view is rendered. *)
Theorem ProtectedRoute_two_tier_redirect {N} (children : N)
    (allowedRoles : list string) (principal : option Auth.User) :
  Auth.ProtectedRoute children allowedRoles principal
  = (if Auth.canAccess principal allowedRoles then Auth.Fragment children
     else match principal with
          | None => Auth.Navigate "/login" true
          | Some _ => Auth.Navigate "/" true
          end)
  ∧ Auth.routes "/" principal = Auth.Fragment Auth.Dashboard.
Proof.
  split; [|reflexivity].
  unfold Auth.ProtectedRoute, Auth.canAccess.
  destruct principal as [u|]; [|done].
  rewrite includes_elem_of. by destruct (bool_decide _).
Qed.

(** C1, as first stated, fails: a principal whose admin request is still
    pending and whose role is already admin is not treated as a viewer;
    the admin-only route renders for it. *)
Lemma pending_admin_reaches_admin_route :
  Auth.hasPendingAdminRequest (Some Sample.pending_admin) = true
  ∧ Auth.role Sample.pending_admin ≠ "viewer"
  ∧ Auth.routes "/admin" (Some Sample.pending_admin)
    = Auth.Fragment Auth.AdminManagement.
Proof. split; [reflexivity|]. split; [discriminate|reflexivity]. Qed.

(** C1, amended. For a principal whose requested role is admin and is
    not approved, the guard decides on the principal's current role and
    on nothing else: any principal with that role gets the same answer,
    so the pending request never upgrades the role the check uses, and an
    admin-only rule denies access (redirect to [/]) whenever the current
    role is not admin, as for a viewer. *)
Theorem pending_request_never_upgrades {N} (children : N)
    (allowedRoles : list string) (u : Auth.User) :
  Auth.hasPendingAdminRequest (Some u) = true →
  (∀ u', Auth.role u' = Auth.role u →
     Auth.ProtectedRoute children allowedRoles (Some u')
     = Auth.ProtectedRoute children allowedRoles (Some u))
  ∧ Auth.ProtectedRoute children allowedRoles (Some u)
    = (if bool_decide (Auth.role u ∈ allowedRoles)
       then Auth.Fragment children else Auth.Navigate "/" true)
  ∧ (Auth.role u ≠ "admin" →
     Auth.ProtectedRoute children ["admin"] (Some u) = Auth.Navigate "/" true).
Proof.
  intros _. split; [|split].
  - intros u' Hrole. by apply ProtectedRoute_role_only.
  - unfold Auth.ProtectedRoute. rewrite includes_elem_of.
    by destruct (bool_decide _).
  - intros Hne. unfold Auth.ProtectedRoute. rewrite includes_elem_of.
    rewrite bool_decide_eq_false_2; [done|].
    by intros Hin%list_elem_of_singleton.
Qed.

Lemma pending_request_never_upgrades_witness :
  Auth.hasPendingAdminRequest (Some Sample.pending_viewer) = true
  ∧ Auth.ProtectedRoute Auth.AdminManagement ["admin"] (Some Sample.pending_viewer)
    = Auth.Navigate "/" true.
Proof.
  split; [reflexivity|].
  apply (pending_request_never_upgrades Auth.AdminManagement ["admin"]
           Sample.pending_viewer); [reflexivity|discriminate].
Defined.

(** ** The Integrations page *)

Section page_basics.

Import Page.

Lemma strict_eq_string (v : value) (s : string) :
  strict_eq v (Json (JStr s)) = true ↔ v = Json (JStr s).
Proof.
  destruct v as [|[]|]; simpl; try (split; [discriminate|done]).
  rewrite String.eqb_eq. split; [by intros ->|by intros [= ->]].
Qed.

Lemma strict_eq_string_false (v : value) (s : string) :
  strict_eq v (Json (JStr s)) = false ↔ v ≠ Json (JStr s).
Proof. rewrite <-strict_eq_string. by destruct (strict_eq _ _). Qed.

Lemma get_lookup (o : object) (k : string) (v : value) :
  v ≠ Undefined → get o k = v → o !! k = Some v.
Proof. unfold get. destruct (o !! k); simpl; congruence. Qed.

Lemma get_insert_eq (o : object) (k : string) (v : value) :
  get (<[k := v]> o) k = v.
Proof. unfold get. by rewrite lookup_insert_eq. Qed.

Lemma get_insert_ne (o : object) (k k' : string) (v : value) :
  k ≠ k' → get (<[k := v]> o) k' = get o k'.
Proof. intros. unfold get. by rewrite lookup_insert_ne. Qed.

Lemma setIntegrations_same (l : list object) (st : State) :
  l = integrations st → setIntegrations (λ _, l) st = st.
Proof. intros ->. by destruct st. Qed.

Lemma toggled_other (id : string) (o : object) :
  get o "id" ≠ Json (JStr id) → toggled id o = o.
Proof. intros H. unfold toggled. by apply strict_eq_string_false in H as ->. Qed.

Lemma toggled_match (id : string) (o : object) :
  get o "id" = Json (JStr id) →
  toggled id o = <["enabled" := Json (JBool (negb (truthy (get o "enabled"))))]> o.
Proof. intros H. unfold toggled. by apply strict_eq_string in H as ->. Qed.

(** Toggling keeps every field but [enabled], the id among them. *)
Lemma toggled_lookup_ne (id k : string) (o : object) :
  k ≠ "enabled" → toggled id o !! k = o !! k.
Proof.
  intros Hk. unfold toggled. destruct (strict_eq _ _); [|done].
  by rewrite lookup_insert_ne.
Qed.

End page_basics.

(** C2, as first stated, fails: toggling an id that names no integration
    is not an error; the call returns, and returns the page it was given. *)
Lemma handleToggle_unknown_id_returns :
  Page.handleToggle "nonexistent-id" Sample.fresh = Normal Sample.fresh
  ∧ ∀ e, Page.handleToggle "nonexistent-id" Sample.fresh ≠ Throw e.
Proof. split; [|intros e]; by vm_compute. Qed.

(** C2, amended. For an id that no integration of the page carries,
    [handleToggle] returns normally (no error kind is reported) and leaves
    the page, and so every integration record, as it was. *)
Theorem handleToggle_unknown_id (id : string) (st : Page.State) :
  (∀ o, o ∈ Page.integrations st → get o "id" ≠ Json (JStr id)) →
  Page.handleToggle id st = Normal st.
Proof.
  intros Hfresh. unfold Page.handleToggle. simpl. f_equal.
  apply setIntegrations_same.
  induction (Page.integrations st) as [|o l IH]; [done|].
  rewrite fmap_cons, toggled_other, IH; [done| |].
  - intros o' Ho'. apply Hfresh. by right.
  - apply Hfresh. by left.
Qed.

Lemma handleToggle_unknown_id_witness :
  Page.handleToggle "nonexistent-id" Sample.fresh = Normal Sample.fresh.
Proof.
  apply (handleToggle_unknown_id "nonexistent-id" Sample.fresh).
  intros o Ho. simpl in Ho. unfold Page.defaultIntegrations in Ho.
  repeat (apply elem_of_cons in Ho as [->|Ho]; [by vm_compute|]).
  by apply elem_of_nil in Ho.
Defined.

(** C8. For an integration of the page with the given id, [handleToggle]
    negates its [enabled] flag and leaves its other fields, [status] and
    [config] among them, as they were; a second [handleToggle] gives the
    record back as it was, so [enabled] has its first value again. *)
Theorem handleToggle_involution (id : string) (st : Page.State)
    (i : nat) (o : object) (b : bool) :
  Page.integrations st !! i = Some o →
  get o "id" = Json (JStr id) →
  get o "enabled" = Json (JBool b) →
  ∃ st1 o1,
    Page.handleToggle id st = Normal st1
    ∧ Page.integrations st1 !! i = Some o1
    ∧ get o1 "enabled" = Json (JBool (negb b))
    ∧ get o1 "status" = get o "status"
    ∧ get o1 "config" = get o "config"
    ∧ (∀ k, k ≠ "enabled" → o1 !! k = o !! k)
    ∧ ∃ st2,
        Page.handleToggle id st1 = Normal st2
        ∧ Page.integrations st2 !! i = Some o.
Proof.
  intros Hi Hid Hen.
  eexists _, (<["enabled" := Json (JBool (negb b))]> o).
  split; [reflexivity|]. simpl.
  assert (Page.toggled id o = <["enabled" := Json (JBool (negb b))]> o) as Ho1.
  { rewrite toggled_match by done. by rewrite Hen. }
  split. { by rewrite list_lookup_fmap, Hi, <-Ho1. }
  split. { apply get_insert_eq. }
  split. { by apply get_insert_ne. }
  split. { by apply get_insert_ne. }
  split. { intros k Hk. by rewrite lookup_insert_ne. }
  eexists. split; [reflexivity|]. simpl.
  rewrite !list_lookup_fmap, Hi. simpl. f_equal.
  rewrite Ho1, toggled_match by (by rewrite get_insert_ne).
  rewrite get_insert_eq, insert_insert_eq. simpl. rewrite negb_involutive.
  apply insert_id. by apply get_lookup.
Qed.

Lemma handleToggle_involution_witness :
  ∃ st1 o1,
    Page.handleToggle "email" Sample.fresh = Normal st1
    ∧ Page.integrations st1 !! 2 = Some o1
    ∧ get o1 "enabled" = Json (JBool false)
    ∧ ∃ st2, Page.handleToggle "email" st1 = Normal st2
             ∧ Page.integrations st2 !! 2 = Page.defaultIntegrations !! 2.
Proof.
  destruct (handleToggle_involution "email" Sample.fresh 2
              (default ∅ (Page.defaultIntegrations !! 2)) true)
    as (st1 & o1 & H1 & H2 & H3 & _ & _ & _ & st2 & H4 & H5);
    [reflexivity|reflexivity|reflexivity|].
  exists st1, o1. repeat split; [exact H1|exact H2|exact H3|].
  exists st2. split; [exact H4|exact H5].
Defined.

Section configure.

Import Page.

Lemma configured_other (sel o : object) (values : value) (id : string) :
  get sel "id" = Json (JStr id) → get o "id" ≠ Json (JStr id) →
  configured sel values o = o.
Proof.
  intros Hsel Ho. unfold configured. rewrite Hsel.
  by apply strict_eq_string_false in Ho as ->.
Qed.

Lemma configured_match (sel o : object) (values : value) (id : string) :
  get sel "id" = Json (JStr id) → get o "id" = Json (JStr id) →
  configured sel values o
  = <["enabled" := Json (JBool true)]>
      (<["status" := Json (JStr "connected")]> (<["config" := values]> o)).
Proof.
  intros Hsel Ho. unfold configured. rewrite Hsel.
  by apply strict_eq_string in Ho as ->.
Qed.

Lemma configured_get_id (sel o : object) (values : value) :
  get (configured sel values o) "id" = get o "id".
Proof.
  unfold configured. destruct (strict_eq _ _); [|done].
  by rewrite !get_insert_ne.
Qed.

(** Saving the same values for the same id a second time changes nothing. *)
Lemma configured_idemp (sel sel' o : object) (values : value) :
  get sel' "id" = get sel "id" →
  configured sel' values (configured sel values o) = configured sel values o.
Proof.
  intros Hsel. unfold configured at 1. rewrite configured_get_id, Hsel.
  unfold configured. destruct (strict_eq _ _); [|done].
  apply map_eq. intros k.
  rewrite !lookup_insert. by repeat case_decide.
Qed.

(** What the three events of a configuration leave behind. *)
Lemma configure_unfold (o : object) (values : value) (st : State) :
  configure o values st
  = Normal (persist {| user := user st;
                       integrations := configured o values <$> integrations st;
                       configDialogOpen := false; selectedIntegration := None;
                       configValues := values; testResult := None;
                       localStorage := localStorage st |}).
Proof. reflexivity. Qed.

Lemma persist_persist (st : State) : persist (persist st) = persist st.
Proof.
  unfold persist, setLocalStorage, setItem. simpl. f_equal.
  apply insert_insert_eq.
Qed.

(** No event but Save touches a [status]. *)
Lemma dispatch_status (e : Event) (st st' : State) :
  e ≠ SaveClick → dispatch e st = Normal st' →
  (λ x, get x "status") <$> integrations st'
  = (λ x, get x "status") <$> integrations st.
Proof.
  intros He. destruct e; simpl; try done; intros [= <-]; simpl; try done.
  rewrite <-list_fmap_compose. apply list_fmap_ext. intros _ x _. simpl.
  unfold toggled. destruct (strict_eq _ _); [|done]. by rewrite get_insert_ne.
Qed.

End configure.

(** C7. Configuring an integration of the page (Configure on its card, the
    values, Save) leaves that integration with [config] the given values,
    [status] connected and [enabled] true, its other fields and every
    integration with another id unchanged; configuring it again with the
    same values gives the same page; and no event other than Save changes
    the [status] of any integration. *)
Theorem configure_connects (st : Page.State) (i : nat) (o : object)
    (id : string) (values : value) :
  Page.integrations st !! i = Some o →
  get o "id" = Json (JStr id) →
  ∃ st1 o1,
    Page.configure o values st = Normal st1
    ∧ Page.integrations st1 !! i = Some o1
    ∧ get o1 "config" = values
    ∧ get o1 "status" = Json (JStr "connected")
    ∧ get o1 "enabled" = Json (JBool true)
    ∧ (∀ k, k ≠ "config" → k ≠ "status" → k ≠ "enabled" → o1 !! k = o !! k)
    ∧ length (Page.integrations st1) = length (Page.integrations st)
    ∧ (∀ j o', Page.integrations st !! j = Some o' →
               get o' "id" ≠ Json (JStr id) →
               Page.integrations st1 !! j = Some o')
    ∧ Page.configure o1 values st1 = Normal st1
    ∧ (∀ e st', e ≠ Page.SaveClick → Page.dispatch e st = Normal st' →
         (λ x, get x "status") <$> Page.integrations st'
         = (λ x, get x "status") <$> Page.integrations st).
Proof.
  intros Hi Hid. rewrite configure_unfold.
  eexists _, (Page.configured o values o). split; [reflexivity|]. simpl.
  split. { by rewrite list_lookup_fmap, Hi. }
  rewrite (configured_match o o values id) by done.
  split. { rewrite !get_insert_ne by done. apply get_insert_eq. }
  split. { rewrite get_insert_ne by done. apply get_insert_eq. }
  split. { apply get_insert_eq. }
  split. { intros k ???. by rewrite !lookup_insert_ne. }
  split. { apply length_fmap. }
  split. { intros j o' Hj Ho'. rewrite list_lookup_fmap, Hj. simpl.
           f_equal. by apply (configured_other o o' values id). }
  split.
  - rewrite <-(configured_match o o values id) by done.
    rewrite configure_unfold. f_equal. simpl.
    rewrite <-list_fmap_compose.
    erewrite (list_fmap_ext _ (Page.configured o values)); last first.
    { intros _ x _. simpl. apply configured_idemp, configured_get_id. }
    unfold Page.persist, Page.setLocalStorage, setItem. simpl. f_equal.
    apply insert_insert_eq.
  - intros e st'. apply dispatch_status.
Qed.

Lemma configure_connects_witness :
  ∃ st1 o1,
    Page.configure (default ∅ (Page.defaultIntegrations !! 0))
      (Json (JObj {[ "webhookUrl" := JStr "https://x" ]})) Sample.fresh
    = Normal st1
    ∧ Page.integrations st1 !! 0 = Some o1
    ∧ get o1 "config" = Json (JObj {[ "webhookUrl" := JStr "https://x" ]})
    ∧ get o1 "status" = Json (JStr "connected")
    ∧ get o1 "enabled" = Json (JBool true).
Proof.
  destruct (configure_connects Sample.fresh 0
              (default ∅ (Page.defaultIntegrations !! 0)) "slack"
              (Json (JObj {[ "webhookUrl" := JStr "https://x" ]})))
    as (st1 & o1 & H1 & H2 & H3 & H4 & H5 & _); [reflexivity|reflexivity|].
  exists st1, o1. repeat split; assumption.
Defined.

(** C10. The handlers of the page never look at the session user: run on
    two pages that differ only in their user, every event, and so a
    toggle and a configuration, gives the same integrations, the same
    stored text and the same rest of the page.  The role shows only in
    the controls, disabled unless [canModify], and in the guard of the
    [/integrations] route, which lets in exactly the roles that
    [canModify] accepts. *)
Theorem handlers_ignore_role (u1 u2 : option Auth.User) (st : Page.State) :
  (∀ e, Page.setUser u2 <$> Page.dispatch e (Page.setUser u1 st)
        = Page.dispatch e (Page.setUser u2 st))
  ∧ (∀ id, Page.setUser u2 <$> Page.handleToggle id (Page.setUser u1 st)
           = Page.handleToggle id (Page.setUser u2 st))
  ∧ (Page.setUser u2 <$> Page.handleSaveConfig (Page.setUser u1 st)
     = Page.handleSaveConfig (Page.setUser u2 st))
  ∧ (∀ o values,
       Page.setUser u2 <$> Page.configure o values (Page.setUser u1 st)
       = Page.configure o values (Page.setUser u2 st))
  ∧ (∀ o, Page.switch_disabled (Page.card_controls u1 o) = negb (Auth.canModify u1)
          ∧ Page.configure_disabled (Page.card_controls u1 o) = negb (Auth.canModify u1))
  ∧ (Auth.canModify u1 = true
     ↔ ∃ u, u1 = Some u ∧ Auth.role u ∈ ["admin"; "analyst"])
  ∧ Auth.routes "/integrations" u1
    = if Auth.canModify u1 then Auth.Fragment Auth.Integrations
      else match u1 with
           | None => Auth.Navigate "/login" true
           | Some _ => Auth.Navigate "/" true
           end.
Proof.
  split. { destruct st as [? ? ? [?|] ? ? ?]; by intros []. }
  split; [done|].
  split. { by destruct st as [? ? ? [?|] ? ? ?]. }
  split. { intros o values. by rewrite !configure_unfold. }
  split; [done|].
  split.
  - destruct u1 as [u|]; simpl.
    + rewrite orb_true_iff, !String.eqb_eq. split.
      * intros H. exists u. split; [done|].
        rewrite !elem_of_cons. tauto.
      * intros (u' & [= <-] & H). rewrite !elem_of_cons in H.
        destruct H as [?|[?|H]]; [tauto..|by apply elem_of_nil in H].
    + split; [done|]. by intros (? & ? & _).
  - change (Auth.routes "/integrations" u1)
      with (Auth.ProtectedRoute Auth.Integrations ["admin"; "analyst"] u1).
    destruct u1 as [u|]; [|done]. unfold Auth.ProtectedRoute, includes. simpl.
    by destruct (String.eqb (Auth.role u) "admin"),
                (String.eqb (Auth.role u) "analyst").
Qed.

Section load.

Import Page.

Lemma mapM_Normal {A B} (f : A → completion B) (l : list A) (k : list B) :
  Forall2 (λ x y, f x = Normal y) l k → mapM f l = Normal k.
Proof.
  induction 1 as [|x y l k Hxy _ IH]; [done|].
  simpl. rewrite Hxy. simpl. fold (mapM f l). by rewrite IH.
Qed.

(** What [loadIntegrations] does with stored JSON text. *)
Lemma loadIntegrations_parsed (ls : Storage) (j : json) :
  getItem ls "integrations_config" = Some (JsonText j) →
  loadIntegrations ls
  = Normal (match mapM (from_saved j) defaultIntegrations with
            | Normal merged => merged
            | Throw _ => defaultIntegrations
            end).
Proof.
  intros H. unfold loadIntegrations. rewrite H.
  cbn -[mapM defaultIntegrations from_saved].
  by destruct (mapM (from_saved j) defaultIntegrations).
Qed.


End load.

Section merge.

Import Page.

Lemma mapM_Normal_total {A B} (f : A → completion B) (l : list A) :
  (∀ x, x ∈ l → ∃ y, f x = Normal y) →
  ∃ k, mapM f l = Normal k ∧ Forall2 (λ x y, f x = Normal y) l k.
Proof.
  induction l as [|x l IH]; intros Hf.
  - exists []. by split.
  - destruct (Hf x) as [y Hy]; [by left|].
    destruct IH as (k & Hk & HF); [intros z Hz; apply Hf; by right|].
    exists (y :: k). split; [|by constructor].
    apply mapM_Normal. by constructor.
Qed.

Lemma Forall2_fmap_eq {A B C} (f : A → C) (g : B → C) (l : list A) (k : list B) :
  Forall2 (λ x y, g y = f x) l k → g <$> k = f <$> l.
Proof. induction 1 as [|x y l k Hxy _ IH]; [done|]. by rewrite !fmap_cons, Hxy, IH. Qed.

Lemma first_with_id_unique records s n r n' r' :
  first_with_id records s n r → first_with_id records s n' r' → n = n' ∧ r = r'.
Proof.
  intros (Hn & Hr & Hmin) (Hn' & Hr' & Hmin').
  assert (n = n') as <-.
  { destruct (lt_eq_lt_dec n n') as [[Hlt| ->]|Hlt]; [|done|].
    - by destruct (Hmin' n r).
    - by destruct (Hmin n' r'). }
  split; [done|congruence].
Qed.

Lemma prop_id_matches (r : gmap string json) (s : string) :
  strict_eq (from_option Json Undefined (r !! "id")) (Json (JStr s)) = true
  ↔ r !! "id" = Some (JStr s).
Proof.
  rewrite strict_eq_string. destruct (r !! "id"); simpl; [|done].
  split; congruence.
Qed.

Lemma find_by_id_records (records : list (gmap string json)) (s : string) :
  (∃ n r, find_by_id (JObj <$> records) (Json (JStr s)) = Normal (Some (JObj r))
          ∧ first_with_id records s n r)
  ∨ (find_by_id (JObj <$> records) (Json (JStr s)) = Normal None
     ∧ ∀ r, r ∈ records → r !! "id" ≠ Some (JStr s)).
Proof.
  induction records as [|r0 records IH].
  - right. split; [done|]. by intros r ?%elem_of_nil.
  - rewrite fmap_cons. cbn [find_by_id prop mbind completion_bind].
    destruct (strict_eq _ _) eqn:Heq.
    + apply prop_id_matches in Heq. left. exists 0, r0.
      split; [done|]. split; [done|]. split; [done|]. intros; lia.
    + assert (r0 !! "id" ≠ Some (JStr s)) as Hr0.
      { intros H%prop_id_matches. congruence. }
      destruct IH as [(n & r & Hfind & Hn & Hr & Hmin)|[Hfind Hnone]].
      * left. exists (S n), r. split; [done|]. split; [done|]. split; [done|].
        intros [|m] r' Hm Hlt; simpl in Hm; [congruence|].
        apply (Hmin m); [done|lia].
      * right. split; [done|]. intros r [->|?]%elem_of_cons; auto.
Qed.

Lemma merge_lookup_icon (def : object) (saved : json) :
  merge def saved !! "icon" = Some (get def "icon").
Proof. unfold merge. apply lookup_insert_eq. Qed.

Lemma merge_lookup_ne (def : object) (r : gmap string json) (k : string) :
  k ≠ "icon" →
  merge def (JObj r) !! k
  = match r !! k with Some j => Some (Json j) | None => def !! k end.
Proof.
  intros Hk. unfold merge. rewrite lookup_insert_ne by done. simpl.
  rewrite lookup_union, lookup_fmap.
  destruct (r !! k); simpl; [|by destruct (def !! k)].
  by destruct (def !! k).
Qed.

(** What the callback returns over an array of records. *)
Lemma from_saved_records (records : list (gmap string json)) (def : object)
    (s : string) :
  get def "id" = Json (JStr s) →
  (∃ n r, from_saved (JArr (JObj <$> records)) def = Normal (merge def (JObj r))
          ∧ first_with_id records s n r)
  ∨ (from_saved (JArr (JObj <$> records)) def = Normal def
     ∧ ∀ r, r ∈ records → r !! "id" ≠ Some (JStr s)).
Proof.
  intros Hid. unfold from_saved, find_saved. rewrite Hid.
  destruct (find_by_id_records records s)
    as [(n & r & -> & Hfirst)|[-> Hnone]]; [left|right].
  - by exists n, r.
  - done.
Qed.

Lemma template_id (i : nat) (def : object) (s : string) :
  defaultIntegrations !! i = Some def → template_ids !! i = Some s →
  get def "id" = Json (JStr s).
Proof.
  intros Hdef Hs.
  assert ((λ o, get o "id") <$> defaultIntegrations
          = (λ s, Json (JStr s)) <$> template_ids) as H by reflexivity.
  apply (f_equal (.!! i)) in H.
  rewrite !list_lookup_fmap, Hdef, Hs in H. simpl in H. congruence.
Qed.

Lemma template_id_exists (def : object) :
  def ∈ defaultIntegrations →
  ∃ i s, defaultIntegrations !! i = Some def ∧ template_ids !! i = Some s.
Proof.
  intros (i & Hi)%list_elem_of_lookup. exists i.
  assert (i < length template_ids) as Hlt.
  { apply lookup_lt_Some in Hi. exact Hi. }
  destruct (lookup_lt_is_Some_2 template_ids i Hlt) as [s Hs]. by exists s.
Qed.

Lemma template_icon (def : object) :
  def ∈ defaultIntegrations → def !! "icon" = Some (get def "icon").
Proof.
  unfold defaultIntegrations.
  intros H. repeat (apply elem_of_cons in H as [->|H]; [reflexivity|]).
  by apply elem_of_nil in H.
Qed.

End merge.

(** C3, as first stated, fails for the display name: a stored record that
    carries a [name] passes it on to the loaded state, in place of the
    name in the template. *)
Lemma loadIntegrations_keeps_stored_name :
  ∃ o rest,
    Page.loadIntegrations Sample.renamed = Normal (o :: rest)
    ∧ get o "id" = Json (JStr "slack")
    ∧ get o "name" = Json (JStr "Renamed")
    ∧ get (default ∅ (Page.defaultIntegrations !! 0)) "name" = Json (JStr "Slack")
    ∧ get o "icon" = Component Chat.
Proof. eexists _, _. split; [by vm_compute|]. by vm_compute. Qed.

(** C3, amended. Over any stored array of records [loadIntegrations]
    returns one state per entry of the template, in the template's order
    and with the template's ids, so stored records with other ids are
    dropped.  The state of an entry with no stored record is the entry
    itself.  The state of an entry with a stored record takes the icon
    from the template and every other field from the stored record where
    the record has it (name and description included), from the template
    where it has not. *)
Theorem loadIntegrations_merges (ls : Storage)
    (records : list (gmap string json)) :
  getItem ls "integrations_config" = Some (JsonText (JArr (JObj <$> records))) →
  ∃ loaded,
    Page.loadIntegrations ls = Normal loaded
    ∧ (λ o, get o "id") <$> loaded = (λ s, Json (JStr s)) <$> Page.template_ids
    ∧ ∀ i def s o,
        Page.defaultIntegrations !! i = Some def →
        Page.template_ids !! i = Some s →
        loaded !! i = Some o →
        o !! "icon" = def !! "icon"
        ∧ ((∀ r, r ∈ records → r !! "id" ≠ Some (JStr s)) → o = def)
        ∧ (∀ n r, Page.first_with_id records s n r →
             ∀ k, k ≠ "icon" →
               o !! k = match r !! k with
                        | Some j => Some (Json j)
                        | None => def !! k
                        end).
Proof.
  intros Hls. rewrite (loadIntegrations_parsed _ _ Hls).
  destruct (mapM_Normal_total (Page.from_saved (JArr (JObj <$> records)))
              Page.defaultIntegrations) as (loaded & -> & HF).
  { intros def (i & s & Hi & Hs)%template_id_exists.
    destruct (from_saved_records records def s (template_id _ _ _ Hi Hs))
      as [(? & ? & -> & _)|[-> _]]; by eexists. }
  exists loaded. split; [done|].
  assert (∀ i def s o,
            Page.defaultIntegrations !! i = Some def →
            Page.template_ids !! i = Some s →
            loaded !! i = Some o →
            get o "id" = Json (JStr s)
            ∧ o !! "icon" = def !! "icon"
            ∧ ((∀ r, r ∈ records → r !! "id" ≠ Some (JStr s)) → o = def)
            ∧ (∀ n r, Page.first_with_id records s n r →
                 ∀ k, k ≠ "icon" →
                   o !! k = match r !! k with
                            | Some j => Some (Json j)
                            | None => def !! k
                            end)) as Hall.
  { intros i def s o Hdef Hs Ho.
    pose proof (template_id _ _ _ Hdef Hs) as Hid.
    pose proof (Forall2_lookup_lr _ _ _ _ _ _ HF Hdef Ho) as Hsaved.
    destruct (from_saved_records records def s Hid)
      as [(n & r & Hmerge & Hfirst)|[Hsame Hnone]].
    - assert (o = Page.merge def (JObj r)) as -> by congruence.
      split; [|split; [|split]].
      + unfold get. rewrite merge_lookup_ne by done.
        destruct Hfirst as (_ & -> & _). done.
      + rewrite merge_lookup_icon. symmetry. apply template_icon.
        by eapply list_elem_of_lookup_2.
      + intros Hnone. destruct Hfirst as (Hn & Hr & _).
        destruct (Hnone r); [by eapply list_elem_of_lookup_2|done].
      + intros n' r' Hfirst' k Hk.
        destruct (first_with_id_unique _ _ _ _ _ _ Hfirst Hfirst') as [_ <-].
        by apply merge_lookup_ne.
    - assert (o = def) as -> by congruence.
      split; [done|]. split; [done|]. split; [done|].
      intros n r (Hn & Hr & _). destruct (Hnone r); [|done].
      by eapply list_elem_of_lookup_2. }
  split.
  - apply list_eq. intros i. rewrite !list_lookup_fmap.
    pose proof (Forall2_length _ _ _ HF) as Hlen.
    destruct (loaded !! i) as [o|] eqn:Ho; simpl.
    + destruct (Forall2_lookup_r _ _ _ _ _ HF Ho) as (def & Hdef & _).
      assert (is_Some (Page.template_ids !! i)) as [s Hs].
      { apply lookup_lt_is_Some. apply lookup_lt_Some in Hdef. exact Hdef. }
      rewrite Hs. simpl. f_equal. by apply (Hall i def s o).
    + apply lookup_ge_None in Ho.
      rewrite (proj2 (lookup_ge_None Page.template_ids i)); [done|].
      rewrite <-Hlen in Ho. exact Ho.
  - intros i def s o Hdef Hs Ho. by destruct (Hall i def s o) as [_ ?].
Qed.

Lemma loadIntegrations_merges_witness :
  ∃ loaded,
    Page.loadIntegrations Sample.renamed = Normal loaded
    ∧ (λ o, get o "id") <$> loaded = (λ s, Json (JStr s)) <$> Page.template_ids.
Proof.
  destruct (loadIntegrations_merges Sample.renamed
              [{[ "id" := JStr "slack"; "name" := JStr "Renamed" ]}])
    as (loaded & H1 & H2 & _); [reflexivity|].
  exists loaded. split; [exact H1|exact H2].
Defined.

Section persist.

Import Page.

(** The record written for an integration: its data fields, without the
    icon. *)
Lemma stored_record_lookup (o : object) (k : string) :
  omap to_json (delete "icon" o) !! k
  = if decide (k = "icon") then None else o !! k ≫= to_json.
Proof.
  rewrite lookup_omap. case_decide as Hk.
  - subst k. by rewrite lookup_delete_eq.
  - by rewrite lookup_delete_ne.
Qed.

Lemma stringify_records (l : list object) :
  JSON_stringify (dataToSave l)
  = JsonText (JArr (JObj <$> ((λ o, omap to_json (delete "icon" o)) <$> l))).
Proof.
  unfold JSON_stringify, dataToSave. do 2 f_equal.
  rewrite <-!list_fmap_compose. by apply list_fmap_ext.
Qed.

Lemma persist_stored (st : State) :
  getItem (localStorage (persist st)) "integrations_config"
  = Some (JsonText (JArr (JObj <$>
            ((λ o, omap to_json (delete "icon" o)) <$> integrations st)))).
Proof.
  rewrite <-stringify_records. unfold persist, setItem, getItem. simpl.
  apply lookup_insert_eq.
Qed.

Lemma get_data_lookup (o : object) (k : string) :
  is_data (get o k) = true → ∃ j, o !! k = Some (Json j).
Proof.
  unfold get. destruct (o !! k) as [[]|]; simpl; try done. by eexists.
Qed.

Lemma is_string_data v : is_string v = true → is_data v = true.
Proof. by destruct v as [|[]|]. Qed.

Lemma is_boolean_data v : is_boolean v = true → is_data v = true.
Proof. by destruct v as [|[]|]. Qed.

Lemma is_status_data v : is_status v = true → is_data v = true.
Proof. by destruct v as [|[]|]. Qed.

(** The fields written for a record of the [Integration] interface. *)
Lemma stored_record_dom (o : object) :
  is_Integration o = true →
  dom (omap to_json (delete "icon" o))
  = {[ "id"; "name"; "description"; "enabled"; "status" ]}
    ∪ (dom o ∩ {[ "config" ]}).
Proof.
  unfold is_Integration. rewrite !andb_true_iff.
  intros (((((((Hid & Hname) & Hdesc) & _) & Hen) & Hst) & Hcfg) & Hdom).
  apply bool_decide_eq_true in Hdom.
  apply is_string_data, get_data_lookup in Hid as [jid Hid].
  apply is_string_data, get_data_lookup in Hname as [jname Hname].
  apply is_string_data, get_data_lookup in Hdesc as [jdesc Hdesc].
  apply is_boolean_data, get_data_lookup in Hen as [jen Hen].
  apply is_status_data, get_data_lookup in Hst as [jst Hst].
  apply set_eq. intros k.
  rewrite elem_of_dom, stored_record_lookup.
  rewrite elem_of_union, elem_of_intersection, !elem_of_union,
    !elem_of_singleton, elem_of_dom.
  case_decide as Hk.
  { subst k. split; [by intros []|]. intros [H|[_ H]]; [|done].
    by repeat destruct H as [H|H]. }
  destruct (o !! k) as [v|] eqn:Hv; simpl.
  - assert (k ∈ Integration_fields) as Hin.
    { apply Hdom, elem_of_dom. by eexists. }
    unfold Integration_fields in Hin.
    rewrite !elem_of_union, !elem_of_singleton in Hin.
    destruct Hin as [[[[[[->| ->]| ->]| ->]| ->]| ->]| ->]; simplify_eq/=.
    all: try (split; [intros _; by auto 10|intros _; by eexists]).
    rewrite Hv in Hcfg. destruct v as [|j|c]; simpl in *; try done.
    split; [intros _; right; split; [by eexists|done]|intros _; by eexists].
  - split; [by intros []|].
    intros [H|[[? ?] _]]; [|done].
    repeat destruct H as [H|H]; subst k; congruence.
Qed.

End persist.

(** C6, as first stated, fails on the fields: the record written for the
    Slack entry of the template has the fields id, name, description,
    enabled and status, so the display name and the description are
    written and no [config] is. *)
Lemma persist_writes_name_and_description :
  ∃ r rest,
    getItem (Page.localStorage (Page.persist Sample.fresh)) "integrations_config"
    = Some (JsonText (JArr (JObj r :: rest)))
    ∧ r !! "name" = Some (JStr "Slack")
    ∧ r !! "description" = Some (JStr "Get feedback notifications in Slack channels")
    ∧ r !! "config" = None
    ∧ dom r = {[ "id"; "name"; "description"; "enabled"; "status" ]}.
Proof. eexists _, _. split; [by vm_compute|]. by vm_compute. Qed.

(** C6, amended. The effect writes one entry of localStorage, the one
    under [integrations_config], and leaves the others and the page as
    they were.  What it writes is an array with one record per
    integration, in order; a record holds every data field of its
    integration except the icon.  For an integration of the [Integration]
    interface these are id, name, description, enabled and status, and
    config when the integration has one; there is no version field. *)
Theorem persist_writes_one_entry (st : Page.State) :
  (∀ k, k ≠ "integrations_config" →
        getItem (Page.localStorage (Page.persist st)) k
        = getItem (Page.localStorage st) k)
  ∧ Page.integrations (Page.persist st) = Page.integrations st
  ∧ ∃ records,
      getItem (Page.localStorage (Page.persist st)) "integrations_config"
      = Some (JsonText (JArr (JObj <$> records)))
      ∧ Forall2
          (λ o r,
             (∀ k, r !! k = if decide (k = "icon") then None
                            else o !! k ≫= to_json)
             ∧ (Page.is_Integration o = true →
                dom r = {[ "id"; "name"; "description"; "enabled"; "status" ]}
                        ∪ (dom o ∩ {[ "config" ]})
                ∧ "version" ∉ dom r))
          (Page.integrations st) records.
Proof.
  split.
  { intros k Hk. unfold Page.persist, setItem, getItem. simpl.
    by rewrite lookup_insert_ne. }
  split; [done|].
  eexists. split; [apply persist_stored|].
  apply Forall2_fmap_r, Forall_Forall2_diag, Forall_forall.
  intros o _. split; [apply stored_record_lookup|].
  intros Ho. rewrite (stored_record_dom o Ho). split; [done|].
  rewrite elem_of_union, elem_of_intersection, !elem_of_union,
    !elem_of_singleton.
  intros [H|[_ H]]; [|done]. by repeat destruct H as [H|H].
Qed.

Section round_trip.

Import Page.

Lemma template_ids_NoDup : NoDup template_ids.
Proof. apply (bool_decide_unpack _). by vm_compute. Qed.

Lemma same_component_eq (a b : value) :
  same_component a b = true → a = b ∧ a ≠ Undefined.
Proof.
  destruct a as [| |x], b as [| |y]; simpl; try done.
  by intros ->%bool_decide_eq_true.
Qed.

Lemma tracks_id (def o : object) (s : string) :
  tracks def o = true → get def "id" = Json (JStr s) →
  o !! "id" = Some (Json (JStr s)).
Proof.
  unfold tracks. rewrite !andb_true_iff. intros [[[Hid _] _] _] Hdef.
  rewrite Hdef in Hid. apply strict_eq_string in Hid. by apply get_lookup.
Qed.

(** Plain data is written as it is. *)
Lemma to_json_plain (v : value) :
  is_plain v = true → Json <$> to_json v = Some v.
Proof.
  destruct v as [|[| | | | |props]|]; simpl; try done.
  intros Hprops%bool_decide_eq_true. do 3 f_equal.
  apply map_eq. intros k. rewrite lookup_fmap.
  destruct (props !! k) as [x|] eqn:Hx; simpl; [|done].
  specialize (Hprops k x Hx). by destruct x.
Qed.

(** Merging the record written for [o] over the descriptor that [o]
    stands for gives [o] back. *)
Lemma merge_stored (def o : object) :
  tracks def o = true →
  merge def (JObj (omap to_json (delete "icon" o))) = o.
Proof.
  unfold tracks. rewrite !andb_true_iff.
  intros [[[_ Hicon] Hdom] Hdata].
  apply same_component_eq in Hicon as [Hicon Hdef].
  apply bool_decide_eq_true in Hdom. apply bool_decide_eq_true in Hdata.
  apply map_eq. intros k. destruct (decide (k = "icon")) as [->|Hk].
  - rewrite merge_lookup_icon, <-Hicon. symmetry. by apply get_lookup.
  - rewrite merge_lookup_ne, stored_record_lookup by done.
    rewrite decide_False by done.
    destruct (o !! k) as [v|] eqn:Hv; simpl.
    + destruct (Hdata k v Hv) as [?|Hv']; [done|].
      apply to_json_plain in Hv'. by destruct (to_json v); simplify_eq/=.
    + apply not_elem_of_dom. intros Hin%Hdom. by apply not_elem_of_dom in Hv.
Qed.

(** Loading the text written for a list of records that mirrors the
    template gives the list back. *)
Lemma load_stored (ls : Storage) (l : list object) :
  mirrors_template l →
  getItem ls "integrations_config" = Some (JSON_stringify (dataToSave l)) →
  loadIntegrations ls = Normal l.
Proof.
  intros Hmirror Hls. rewrite stringify_records in Hls.
  rewrite (loadIntegrations_parsed _ _ Hls).
  set (records := (λ o, omap to_json (delete "icon" o)) <$> l).
  rewrite (mapM_Normal _ _ l); [done|].
  pose proof (Forall2_length _ _ _ Hmirror) as Hlen.
  apply Forall2_same_length_lookup_2; [done|].
  intros i def o Hdef Ho.
  pose proof (Forall2_lookup_lr _ _ _ _ _ _ Hmirror Hdef Ho) as Htracks.
  simpl in Htracks.
  assert (is_Some (template_ids !! i)) as [s Hs].
  { apply lookup_lt_is_Some. apply lookup_lt_Some in Hdef. exact Hdef. }
  pose proof (template_id _ _ _ Hdef Hs) as Hid.
  assert (first_with_id records s i (omap to_json (delete "icon" o)))
    as Hfirst.
  { split; [|split].
    - unfold records. by rewrite list_lookup_fmap, Ho.
    - rewrite stored_record_lookup, decide_False by done.
      by rewrite (tracks_id def o s).
    - intros m r' Hm Hlt. unfold records in Hm.
      rewrite list_lookup_fmap in Hm.
      destruct (l !! m) as [o'|] eqn:Ho'; [|done].
      simpl in Hm. injection Hm as <-.
      destruct (Forall2_lookup_r _ _ _ _ _ Hmirror Ho') as (def' & Hdef' & Ht').
      assert (is_Some (template_ids !! m)) as [s' Hs'].
      { apply lookup_lt_is_Some. apply lookup_lt_Some in Hdef'. exact Hdef'. }
      rewrite stored_record_lookup, decide_False by done.
      rewrite (tracks_id def' o' s' Ht' (template_id _ _ _ Hdef' Hs')). simpl.
      intros [= ->].
      pose proof (NoDup_lookup _ _ _ _ template_ids_NoDup Hs Hs'). lia. }
  destruct (from_saved_records records def s Hid)
    as [(n & r & -> & Hfirst')|[_ Hnone]].
  - destruct (first_with_id_unique _ _ _ _ _ _ Hfirst Hfirst') as [_ <-].
    f_equal. by apply merge_stored.
  - destruct Hfirst as (Hi & Hr & _).
    destruct (Hnone _ (list_elem_of_lookup_2 _ _ _ Hi) Hr).
Qed.

End round_trip.

(** C5, as first stated, fails: a state that holds valid records for a
    part of the template only (here the Slack record alone) is not what
    comes back; persisting it and loading returns a state for every entry
    of the template. *)
Lemma persist_then_load_fills_template :
  Forall (λ o, Page.is_Integration o = true) (Page.integrations Sample.slack_only)
  ∧ (λ o, get o "id") <$> Page.integrations Sample.slack_only = [Json (JStr "slack")]
  ∧ Page.loadIntegrations (Page.localStorage (Page.persist Sample.slack_only))
    = Normal Page.defaultIntegrations
  ∧ Page.loadIntegrations (Page.localStorage (Page.persist Sample.slack_only))
    ≠ Normal (Page.integrations Sample.slack_only).
Proof.
  split. { repeat constructor. }
  split; [reflexivity|].
  assert (Page.loadIntegrations (Page.localStorage (Page.persist Sample.slack_only))
          = Normal Page.defaultIntegrations) as -> by (by vm_compute).
  split; [done|]. intros H.
  by apply (f_equal (λ c, match c with Normal l => length l | Throw _ => 0 end)) in H.
Qed.

(** C5, amended. For a state that holds one record per entry of the
    template, in the template's order, each with its entry's id and icon,
    with every field its entry has and with plain data in its fields,
    persisting the state and loading gives the same state back. *)
Theorem persist_then_load (st : Page.State) :
  Page.mirrors_template (Page.integrations st) →
  Page.loadIntegrations (Page.localStorage (Page.persist st))
  = Normal (Page.integrations st).
Proof.
  intros Hmirror. apply load_stored; [done|].
  unfold Page.persist, getItem, setItem. simpl. apply lookup_insert_eq.
Qed.

Lemma persist_then_load_witness :
  Page.loadIntegrations (Page.localStorage Sample.edited)
  = Normal Page.defaultIntegrations
  ∧ Page.integrations Sample.edited ≠ Page.defaultIntegrations
  ∧ Page.loadIntegrations (Page.localStorage (Page.persist Sample.edited))
    = Normal (Page.integrations Sample.edited).
Proof.
  split; [reflexivity|]. split.
  - intros H.
    apply (f_equal (λ l, (λ o, get o "status") <$> l !! 0)) in H.
    vm_compute in H. discriminate H.
  - apply (persist_then_load Sample.edited).
    unfold Page.mirrors_template.
    repeat (constructor; [vm_compute; reflexivity|]). constructor.
Defined.

(** ** Pages reached through events *)

Section reachable.

Import Page.

Lemma mirrors_template_defaults : mirrors_template defaultIntegrations.
Proof. unfold mirrors_template, defaultIntegrations. repeat constructor. Qed.

Lemma is_plain_empty_object : is_plain (Json (JObj ∅)) = true.
Proof. apply bool_decide_eq_true, map_Forall_empty. Qed.

(** Writing plain data into a field other than the id and the icon keeps a
    record in line with its descriptor. *)
Lemma tracks_insert (def o : object) (k : string) (v : value) :
  k ≠ "id" → k ≠ "icon" → is_plain v = true →
  tracks def o = true → tracks def (<[k := v]> o) = true.
Proof.
  intros Hid Hicon Hv. unfold tracks. rewrite !andb_true_iff.
  intros [[[H1 H2] H3] H4]. rewrite !get_insert_ne by done.
  split; [split; [split|]|]; try done.
  - apply bool_decide_eq_true. apply bool_decide_eq_true in H3.
    rewrite dom_insert_L. intros x Hx. apply elem_of_union. right. by apply H3.
  - apply bool_decide_eq_true. apply bool_decide_eq_true in H4.
    apply map_Forall_insert_2; [by right|done].
Qed.

Lemma toggled_tracks (def o : object) (id : string) :
  tracks def o = true → tracks def (toggled id o) = true.
Proof.
  intros H. unfold toggled. destruct (strict_eq _ _); [|done].
  by apply tracks_insert.
Qed.

Lemma configured_tracks (def sel o : object) (v : value) :
  is_plain v = true → tracks def o = true →
  tracks def (configured sel v o) = true.
Proof.
  intros Hv H. unfold configured. destruct (strict_eq _ _); [|done].
  by repeat apply tracks_insert.
Qed.

Lemma mirrors_template_fmap (f : object → object) (l : list object) :
  (∀ def o, tracks def o = true → tracks def (f o) = true) →
  mirrors_template l → mirrors_template (f <$> l).
Proof.
  intros Hf Hl. unfold mirrors_template in *. apply Forall2_fmap_r.
  eapply Forall2_impl; [exact Hl|]. simpl. auto.
Qed.

(** The [config] of a record that is in line with its descriptor is plain
    data, when there is one. *)
Lemma tracks_config (def o : object) :
  tracks def o = true →
  is_plain (if truthy (get o "config") then get o "config" else Json (JObj ∅))
  = true.
Proof.
  unfold tracks. rewrite !andb_true_iff. intros [_ H].
  apply bool_decide_eq_true in H.
  destruct (truthy _) eqn:Ht; [|apply is_plain_empty_object].
  unfold get in *. destruct (o !! "config") as [v|] eqn:Hv; [|done].
  by destruct (H _ _ Hv).
Qed.

Lemma settled_persist (st : State) :
  mirrors_template (integrations st) → is_plain (configValues st) = true →
  settled (persist st).
Proof.
  intros Hm Hp. split; [done|]. split; [done|].
  unfold persist, getItem, setItem. simpl. apply lookup_insert_eq.
Qed.

(** A page over an empty store starts settled, on the template. *)
Lemma mount_settled (u : option Auth.User) (ls : Storage) :
  getItem ls "integrations_config" = None →
  ∃ st, mount u ls = Normal st ∧ settled st
        ∧ integrations st = defaultIntegrations.
Proof.
  intros Hls. unfold mount, loadIntegrations. rewrite Hls. simpl.
  eexists. split; [reflexivity|]. split; [|done].
  apply settled_persist; simpl;
    [apply mirrors_template_defaults|apply is_plain_empty_object].
Qed.

(** Every event of the page keeps it settled. *)
Lemma dispatch_settled (e : Event) (st st' : State) :
  settled st → raised_by st e → dispatch e st = Normal st' → settled st'.
Proof.
  intros (Hm & Hp & Hls) He.
  destruct e as [id|o|v| | |]; simpl.
  - intros [= <-]. apply settled_persist; simpl; [|done].
    apply mirrors_template_fmap; [|done]. intros. by apply toggled_tracks.
  - intros [= <-]. split; [done|]. split; [|done]. simpl.
    simpl in He. apply list_elem_of_lookup in He as [i Hi].
    destruct (Forall2_lookup_r _ _ _ _ _ Hm Hi) as (def & _ & Ht).
    by apply (tracks_config def).
  - by intros [= <-].
  - by intros [= <-].
  - unfold handleSaveConfig. destruct (selectedIntegration st) as [sel|].
    + intros [= <-]. apply settled_persist; simpl; [|done].
      apply mirrors_template_fmap; [|done]. intros.
      by apply configured_tracks.
    + by intros [= <-].
  - by intros [= <-].
Qed.

Lemma reaches_settled (st st' : State) :
  reaches st st' → settled st → settled st'.
Proof.
  induction 1 as [|st st1 st2 e He Hd _ IH]; [done|].
  intros Hst. apply IH. by apply (dispatch_settled e st).
Qed.

(** On a settled page the stored text loads to the records on show. *)
Lemma settled_reload (st : State) :
  settled st → loadIntegrations (localStorage st) = Normal (integrations st).
Proof. intros (Hm & _ & Hls). by apply load_stored. Qed.

(** From a first visit on: whatever the user does, a reload shows the
    same integrations. *)
Lemma reload_after_events (u u' : option Auth.User) (ls : Storage)
    (st0 st : State) :
  getItem ls "integrations_config" = None →
  mount u ls = Normal st0 → reaches st0 st →
  ∃ st', mount u' (localStorage st) = Normal st'
         ∧ integrations st' = integrations st.
Proof.
  intros Hls Hmount Hreach.
  destruct (mount_settled u ls Hls) as (st0' & Hmount' & Hsettled & _).
  assert (st0' = st0) as -> by congruence.
  pose proof (settled_reload st (reaches_settled _ _ Hreach Hsettled)) as Hload.
  unfold mount. rewrite Hload. simpl. by eexists.
Qed.

End reachable.

(** ** Stored text that cannot be used *)

Section unusable.

Import Page.

Lemma mapM_Normal_inv {A B} (f : A → completion B) (l : list A) (k : list B) :
  mapM f l = Normal k → Forall2 (λ x y, f x = Normal y) l k.
Proof.
  revert k. induction l as [|x l IH]; intros k; simpl.
  - intros [= <-]. constructor.
  - destruct (f x) as [y|] eqn:Hy; simpl; [|done].
    fold (mapM f l). destruct (mapM f l) as [k'|]; simpl; [|done].
    intros [= <-]. constructor; [done|]. by apply IH.
Qed.

(** [map] stops at the first call of the callback that throws. *)
Lemma mapM_Throw {A B} (f : A → completion B) (l : list A) (x : A) (e : Error) :
  x ∈ l → f x = Throw e → ∃ e', mapM f l = Throw e'.
Proof.
  intros Hx Hfx. induction l as [|y l IH]; [by apply elem_of_nil in Hx|].
  simpl. fold (mapM f l).
  destruct (f y) as [b|e1] eqn:Hy; simpl; [|by eexists].
  apply elem_of_cons in Hx as [->|Hx]; [congruence|].
  destruct (IH Hx) as [e' ->]. by eexists.
Qed.

(** A callback that gives each element back or throws makes [map] give
    the list back or throw. *)
Lemma mapM_same_or_Throw {A} (f : A → completion A) (l : list A) :
  (∀ x, x ∈ l → f x = Normal x ∨ ∃ e, f x = Throw e) →
  mapM f l = Normal l ∨ ∃ e, mapM f l = Throw e.
Proof.
  induction l as [|x l IH]; intros Hf; [by left|].
  simpl. fold (mapM f l).
  destruct (Hf x) as [->|[e ->]]; [by left| |right; by eexists]. simpl.
  destruct IH as [->|[e ->]]; [intros y Hy; apply Hf; by right| |].
  - by left.
  - right. by eexists.
Qed.

(** What [find] answers with for the id of a template entry is an object
    of the array that carries that id. *)
Lemma find_by_id_found (items : list json) (s : string) (i : json) :
  find_by_id items (Json (JStr s)) = Normal (Some i) →
  ∃ r, i = JObj r ∧ JObj r ∈ items ∧ r !! "id" = Some (JStr s).
Proof.
  induction items as [|i0 items IH]; [done|].
  cbn [find_by_id]. destruct i0 as [| | | | |r]; simpl; try done.
  1-4: by (intros (r & -> & Hr & Hid)%IH; exists r; split; [done|];
           split; [by right|done]).
  destruct (strict_eq _ _) eqn:Heq.
  - intros [= <-]. exists r. split; [done|]. split; [by left|].
    by apply prop_id_matches.
  - intros (r' & -> & Hr & Hid)%IH. exists r'. split; [done|].
    split; [by right|done].
Qed.

(** A [null] that [find] comes to before any record with the id it looks
    for makes it throw. *)
Lemma find_by_id_null (before after : list json) (s : string) :
  (∀ r, JObj r ∈ before → r !! "id" ≠ Some (JStr s)) →
  find_by_id (before ++ JNull :: after) (Json (JStr s)) = Throw TypeError.
Proof.
  intros Hbefore. induction before as [|i0 before IH]; [done|].
  simpl. destruct i0 as [| | | | |r]; simpl; try done.
  all: try (apply IH; intros r Hr; apply Hbefore; by right).
  destruct (strict_eq _ _) eqn:Heq.
  - apply prop_id_matches in Heq. destruct (Hbefore r); [by left|done].
  - apply IH. intros r' Hr. apply Hbefore. by right.
Qed.

End unusable.

(** C9. When nothing is stored under the key, or what is stored cannot be
    used, [loadIntegrations] does not raise: it returns normally and
    returns exactly the template, one record per template id, none
    missing and none added.  Unusable is: text that is not JSON (the empty
    string included); JSON that is not an array ([null], a number, a
    string, an object); an array in which the search for some template id
    comes to a [null] before any record with that id; and an array, the
    empty one included, none of whose elements is a record with a
    template id. *)
Theorem loadIntegrations_fails_soft (ls : Storage) :
  getItem ls "integrations_config" = None
  ∨ (∃ s e, getItem ls "integrations_config" = Some s ∧ JSON_parse s = Throw e)
  ∨ getItem ls "integrations_config" = Some (JsonText (JArr []))
  ∨ (∃ j, getItem ls "integrations_config" = Some (JsonText j)
          ∧ ∀ items, j ≠ JArr items)
  ∨ (∃ before after s,
       getItem ls "integrations_config"
       = Some (JsonText (JArr (before ++ JNull :: after)))
       ∧ s ∈ Page.template_ids
       ∧ ∀ r, JObj r ∈ before → r !! "id" ≠ Some (JStr s))
  ∨ (∃ items,
       getItem ls "integrations_config" = Some (JsonText (JArr items))
       ∧ ∀ r s, JObj r ∈ items → s ∈ Page.template_ids →
                r !! "id" ≠ Some (JStr s)) →
  Page.loadIntegrations ls = Normal Page.defaultIntegrations
  ∧ (λ o, get o "id") <$> Page.defaultIntegrations
    = (λ s, Json (JStr s)) <$> Page.template_ids.
Proof.
  intros H. split; [|reflexivity].
  destruct H as [H|[(s & e & H & Hs)|[H|[(j & H & Hj)|[H|H]]]]].
  - unfold Page.loadIntegrations. by rewrite H.
  - unfold Page.loadIntegrations. rewrite H. by destruct s.
  - unfold Page.loadIntegrations. by rewrite H.
  - rewrite (loadIntegrations_parsed ls j H).
    destruct (mapM_Throw (Page.from_saved j) Page.defaultIntegrations
                (default ∅ (Page.defaultIntegrations !! 0)) TypeError)
      as [e ->]; [by left| |done].
    unfold Page.from_saved, Page.find_saved.
    destruct j; try done. by destruct (Hj items).
  - destruct H as (before & after & s & H & Hs & Hbefore).
    rewrite (loadIntegrations_parsed ls _ H).
    apply list_elem_of_lookup in Hs as [i Hs].
    assert (is_Some (Page.defaultIntegrations !! i)) as [def Hdef].
    { apply lookup_lt_is_Some. apply lookup_lt_Some in Hs. exact Hs. }
    destruct (mapM_Throw (Page.from_saved (JArr (before ++ JNull :: after)))
                Page.defaultIntegrations def TypeError) as [e ->];
      [by eapply list_elem_of_lookup_2| |done].
    unfold Page.from_saved, Page.find_saved.
    rewrite (template_id _ _ _ Hdef Hs).
    by rewrite (find_by_id_null before after s Hbefore).
  - destruct H as (items & H & Hnone).
    rewrite (loadIntegrations_parsed ls _ H).
    destruct (mapM_same_or_Throw (Page.from_saved (JArr items))
                Page.defaultIntegrations) as [->|[e ->]]; [|done..].
    intros def (i & s & Hi & Hs)%template_id_exists.
    unfold Page.from_saved, Page.find_saved.
    rewrite (template_id _ _ _ Hi Hs).
    destruct (find_by_id items (Json (JStr s))) as [[found|]|e] eqn:Hfind;
      simpl; [|by left|right; by eexists].
    apply find_by_id_found in Hfind as (r & -> & Hr & Hid).
    destruct (Hnone r s Hr); [|done]. by eapply list_elem_of_lookup_2.
Qed.

Lemma loadIntegrations_fails_soft_witness :
  Page.loadIntegrations Sample.garbled = Normal Page.defaultIntegrations
  ∧ Page.loadIntegrations (Sample.holding (JsonText JNull))
    = Normal Page.defaultIntegrations
  ∧ Page.loadIntegrations (Sample.holding (JsonText (JNum 7)))
    = Normal Page.defaultIntegrations
  ∧ Page.loadIntegrations (Sample.holding (JsonText (JObj ∅)))
    = Normal Page.defaultIntegrations
  ∧ Page.loadIntegrations (Sample.holding (JsonText Sample.slack_then_null))
    = Normal Page.defaultIntegrations
  ∧ Page.loadIntegrations (Sample.holding (JsonText (JArr [JNum 7; JStr "slack"])))
    = Normal Page.defaultIntegrations.
Proof.
  refine (conj _ (conj _ (conj _ (conj _ (conj _ _))))).
  - apply (loadIntegrations_fails_soft Sample.garbled).
    right. left. exists NotJson, SyntaxError. split; reflexivity.
  - apply (loadIntegrations_fails_soft (Sample.holding (JsonText JNull))).
    do 3 right. left. exists JNull. split; [reflexivity|discriminate].
  - apply (loadIntegrations_fails_soft (Sample.holding (JsonText (JNum 7)))).
    do 3 right. left. exists (JNum 7). split; [reflexivity|discriminate].
  - apply (loadIntegrations_fails_soft (Sample.holding (JsonText (JObj ∅)))).
    do 3 right. left. exists (JObj ∅). split; [reflexivity|discriminate].
  - apply (loadIntegrations_fails_soft
             (Sample.holding (JsonText Sample.slack_then_null))).
    do 4 right. left.
    exists [JObj {[ "id" := JStr "slack"; "enabled" := JBool true ]}], [], "teams".
    split; [reflexivity|]. split.
    + apply list_elem_of_In. right. left. reflexivity.
    + intros r Hr. apply list_elem_of_singleton in Hr. injection Hr as ->.
      by vm_compute.
  - apply (loadIntegrations_fails_soft
             (Sample.holding (JsonText (JArr [JNum 7; JStr "slack"])))).
    do 5 right. exists [JNum 7; JStr "slack"]. split; [reflexivity|].
    intros r s Hr _. rewrite !elem_of_cons in Hr.
    destruct Hr as [Hr|[Hr|Hr%elem_of_nil]]; done.
Defined.

(** ** What the controls allow *)

Section controls.

Import Page UI.

Lemma indexed_lookup {A} (l : list A) (k : string) (x : A) :
  indexed l !! k = Some x → x ∈ l.
Proof.
  unfold indexed. intros H%elem_of_list_to_map_2.
  apply elem_of_lookup_imap in H as (i & y & [= _ <-] & Hy).
  by eapply list_elem_of_lookup_2.
Qed.

(** The own properties of plain data are strings. *)
Lemma own_props_plain (j : json) (k : string) (x : json) :
  is_plain (Json j) = true → own_props j !! k = Some x → is_JStr x = true.
Proof.
  destruct j as [| | |s| |props]; simpl; try done.
  - intros _ Hx%indexed_lookup.
    apply list_elem_of_fmap in Hx as (c & -> & _). done.
  - intros Hprops%bool_decide_eq_true Hx. by apply (Hprops k x).
Qed.

(** Typing into a field of the dialog keeps its values plain. *)
Lemma with_field_plain (v : value) (key text : string) :
  is_plain v = true → is_plain (with_field v key text) = true.
Proof.
  intros Hv. apply bool_decide_eq_true, map_Forall_insert_2; [done|].
  destruct v as [|j|]; try done.
  intros k x Hx. by apply (own_props_plain j k x).
Qed.

Lemma with_field_keys (v : value) (key text : string) :
  ∃ n, keys_length (with_field v key text) = Normal (S n).
Proof.
  unfold with_field, keys_length. simpl.
  match goal with |- context [size ?m] => destruct (size m) eqn:Hsize end;
    [|by eexists].
  apply map_size_empty_iff in Hsize. by apply insert_non_empty in Hsize.
Qed.

(** What the controls offer on a settled page, the page can take. *)
Lemma offered_raised_by (st : State) (e : Event) :
  settled st → offered st e → raised_by st e.
Proof.
  intros (_ & Hplain & _) [o id Ho _ _|o Ho _|key text _ _|n _ _|n _ _|_];
    simpl; try done.
  by apply with_field_plain.
Qed.

Lemma ui_reaches_reaches (st st' : State) :
  settled st → ui_reaches st st' → reaches st st'.
Proof.
  intros Hst Hui. induction Hui as [st|st st1 st2 e He Hd _ IH].
  - constructor.
  - pose proof (offered_raised_by st e Hst He) as Hr.
    apply (reaches_event st st1 st2 e Hr Hd), IH.
    by apply (dispatch_settled e st).
Qed.

End controls.

(** X1. A user who cannot modify integrations gets an inert page: with
    the switches and Configure buttons disabled and the dialog closed
    there is no event to raise, so whatever such a user clicks after the
    first render, the page and the stored settings stay as they were. *)
Theorem read_only_page_is_inert (u : option Auth.User) (ls : Storage)
    (st0 st : Page.State) :
  Auth.canModify u = false →
  Page.mount u ls = Normal st0 →
  UI.ui_reaches st0 st →
  st = st0.
Proof.
  intros Hu Hmount Hreach.
  assert (Page.user st0 = u ∧ Page.configDialogOpen st0 = false) as [Hus Hd].
  { unfold Page.mount in Hmount.
    destruct (Page.loadIntegrations ls); simpl in Hmount; [|done].
    by injection Hmount as <-. }
  destruct Hreach as [st|st st1 st2 e He _ _]; [done|].
  destruct He; congruence.
Qed.

Lemma read_only_page_is_inert_witness :
  Page.persist (Sample.page (Some Sample.pending_viewer) Page.defaultIntegrations ∅)
  = Page.persist (Sample.page (Some Sample.pending_viewer) Page.defaultIntegrations ∅).
Proof.
  apply (read_only_page_is_inert (Some Sample.pending_viewer) ∅);
    [reflexivity|reflexivity|constructor].
Defined.

(** X2. From a first visit on (nothing stored yet), whatever sequence of
    switches, Configure clicks, field edits, Test Connection, Save and
    Cancel a user goes through, the stored text keeps up with the page: a
    reload, by any user, shows the same integrations. *)
Theorem reload_after_ui_events (u u' : option Auth.User) (ls : Storage)
    (st0 st : Page.State) :
  getItem ls "integrations_config" = None →
  Page.mount u ls = Normal st0 →
  UI.ui_reaches st0 st →
  ∃ st', Page.mount u' (Page.localStorage st) = Normal st'
         ∧ Page.integrations st' = Page.integrations st.
Proof.
  intros Hls Hmount Hreach.
  destruct (mount_settled u ls Hls) as (st0' & Hmount' & Hsettled & _).
  assert (st0' = st0) as -> by congruence.
  pose proof (ui_reaches_reaches _ _ Hsettled Hreach) as Hr.
  pose proof (settled_reload st (reaches_settled _ _ Hr Hsettled)) as Hload.
  unfold Page.mount. rewrite Hload. simpl. by eexists.
Qed.

Lemma reload_after_ui_events_witness :
  ∃ st st',
    Page.dispatch (Page.SwitchChange "slack")
      (Page.persist (Sample.page (Some Sample.analyst) Page.defaultIntegrations ∅))
    = Normal st
    ∧ Page.mount None (Page.localStorage st) = Normal st'
    ∧ Page.integrations st' = Page.integrations st.
Proof.
  eexists. 
  destruct (reload_after_ui_events (Some Sample.analyst) None ∅
              (Page.persist (Sample.page (Some Sample.analyst) Page.defaultIntegrations ∅))
              (Page.persist (Page.setIntegrations
                               (λ prev, Page.toggled "slack" <$> prev)
                               (Page.persist (Sample.page (Some Sample.analyst)
                                                Page.defaultIntegrations ∅)))))
    as (st' & H1 & H2); [reflexivity|reflexivity| |].
  - eapply (UI.ui_event _ _ _ (Page.SwitchChange "slack"));
      [|reflexivity|constructor].
    eapply (UI.offered_switch _ (default ∅ (Page.defaultIntegrations !! 0)));
      [|reflexivity|reflexivity].
    apply list_elem_of_In. left. reflexivity.
  - exists st'. split; [reflexivity|]. split; [exact H1|exact H2].
Defined.

(** X3. Configure, an edit of one field, Save: after the edit the Save
    button is enabled, whatever was typed (the empty text too), and Save
    leaves the integration connected and enabled with a config that holds
    the typed text under the field's key and, besides, every key the
    config held before. *)
Theorem field_edit_then_save (st : Page.State) (i : nat) (o : object)
    (id key text : string) :
  Page.integrations st !! i = Some o →
  get o "id" = Json (JStr id) →
  ∃ st1 st2 st3 o3 props n,
    Page.dispatch (Page.ConfigureClick o) st = Normal st1
    ∧ Page.dispatch
        (Page.ConfigValuesChange (UI.with_field (Page.configValues st1) key text))
        st1 = Normal st2
    ∧ UI.keys_length (Page.configValues st2) = Normal (S n)
    ∧ Page.dispatch Page.SaveClick st2 = Normal st3
    ∧ Page.integrations st3 !! i = Some o3
    ∧ get o3 "status" = Json (JStr "connected")
    ∧ get o3 "enabled" = Json (JBool true)
    ∧ get o3 "config" = Json (JObj props)
    ∧ props !! key = Some (JStr text)
    ∧ ∀ old, get o "config" = Json (JObj old) →
        ∀ k, k ≠ key → props !! k = old !! k.
Proof.
  intros Hi Hid.
  set (seed := if truthy (get o "config") then get o "config" else Json (JObj ∅)).
  destruct (with_field_keys seed key text) as [n Hn].
  eexists _, _, _, _, _, n.
  split; [reflexivity|]. split; [reflexivity|]. split; [exact Hn|].
  split; [reflexivity|]. simpl.
  rewrite list_lookup_fmap, Hi. simpl.
  rewrite (configured_match o o _ id) by done.
  split; [reflexivity|].
  split. { rewrite get_insert_ne by done. apply get_insert_eq. }
  split. { apply get_insert_eq. }
  split. { rewrite !get_insert_ne by done. apply get_insert_eq. }
  split. { apply lookup_insert_eq. }
  intros old Hold k Hk. rewrite lookup_insert_ne by done.
  unfold seed. by rewrite Hold.
Qed.

Lemma field_edit_then_save_witness :
  ∃ st3 o3 props,
    Page.integrations st3 !! 2 = Some o3
    ∧ get o3 "config" = Json (JObj props)
    ∧ props !! "frequency" = Some (JStr "daily")
    ∧ props !! "email" = Some (JStr "team@example.com").
Proof.
  destruct (field_edit_then_save Sample.fresh 2
              (default ∅ (Page.defaultIntegrations !! 2)) "email"
              "frequency" "daily")
    as (st1 & st2 & st3 & o3 & props & n & _ & _ & _ & _ & H5 & _ & _ & H8 & H9 & H10);
    [reflexivity|reflexivity|].
  exists st3, o3, props. split; [exact H5|]. split; [exact H8|].
  split; [exact H9|].
  rewrite (H10 {[ "email" := JStr "team@example.com" ]}); [reflexivity|reflexivity|done].
Defined.

(** ** What the events keep *)

Section kept.

Import Page.

Lemma toggled_get_ne (id k : string) (o : object) :
  k ≠ "enabled" → toggled id o !! k = o !! k.
Proof. apply toggled_lookup_ne. Qed.

Lemma configured_lookup_ne (sel o : object) (v : value) (k : string) :
  k ≠ "enabled" → k ≠ "status" → k ≠ "config" →
  configured sel v o !! k = o !! k.
Proof.
  intros. unfold configured. destruct (strict_eq _ _); [|done].
  by rewrite !lookup_insert_ne.
Qed.

Lemma toggled_toggled (a b : string) (o : object) :
  toggled a (toggled b o) = toggled b (toggled a o).
Proof.
  unfold toggled at 1 3.
  assert (∀ x, get (toggled x o) "id" = get o "id") as Hid.
  { intros x. unfold get. by rewrite toggled_lookup_ne. }
  rewrite !Hid. unfold toggled.
  destruct (strict_eq (get o "id") (Json (JStr a))),
    (strict_eq (get o "id") (Json (JStr b))); done.
Qed.

Lemma toggled_configured (a id : string) (sel o : object) (v : value) :
  get sel "id" = Json (JStr id) → a ≠ id →
  toggled a (configured sel v o) = configured sel v (toggled a o).
Proof.
  intros Hsel Hne.
  destruct (strict_eq (get o "id") (Json (JStr a))) eqn:Ha.
  - apply strict_eq_string in Ha.
    assert (get o "id" ≠ Json (JStr id)) as Hid by (rewrite Ha; congruence).
    rewrite (configured_other sel o v id) by done.
    rewrite (toggled_match a o) by done.
    rewrite (configured_other sel _ v id); [done..|].
    by rewrite get_insert_ne.
  - apply strict_eq_string_false in Ha.
    rewrite (toggled_other a o) by done.
    apply toggled_other. by rewrite configured_get_id.
Qed.

End kept.

(** X4. No event of the page adds, removes or reorders integrations, and
    none touches a field other than enabled, status and config: ids,
    names, descriptions and icons stay as loaded.  Every event returns
    normally. *)
Theorem events_keep_identity (e : Page.Event) (st : Page.State) (k : string) :
  k ≠ "enabled" → k ≠ "status" → k ≠ "config" →
  (λ st', (λ o, o !! k) <$> Page.integrations st') <$> Page.dispatch e st
  = Normal ((λ o, o !! k) <$> Page.integrations st).
Proof.
  intros H1 H2 H3. destruct e as [id|o|v| | |]; simpl; try done.
  - f_equal. rewrite <-list_fmap_compose. apply list_fmap_ext.
    intros _ x _. simpl. by apply toggled_get_ne.
  - unfold Page.handleSaveConfig.
    destruct (Page.selectedIntegration st) as [sel|]; simpl; [|done].
    f_equal. rewrite <-list_fmap_compose. apply list_fmap_ext.
    intros _ x _. simpl. by apply configured_lookup_ne.
Qed.

Lemma events_keep_identity_witness :
  (λ st', (λ o, o !! "name") <$> Page.integrations st')
    <$> Page.dispatch (Page.SwitchChange "email") Sample.fresh
  = Normal ((λ o, o !! "name") <$> Page.integrations Sample.fresh).
Proof.
  apply (events_keep_identity (Page.SwitchChange "email") Sample.fresh "name");
    discriminate.
Defined.



(** X6. Events on integrations commute: two switches in either order give
    the same page, and so do a switch and a configuration (Configure,
    values, Save) of an integration with another id. *)
Theorem switch_commutes (a b : string) (st : Page.State) :
  (st1 ← Page.dispatch (Page.SwitchChange a) st;
   Page.dispatch (Page.SwitchChange b) st1)
  = (st1 ← Page.dispatch (Page.SwitchChange b) st;
     Page.dispatch (Page.SwitchChange a) st1)
  ∧ ∀ o id values,
      get o "id" = Json (JStr id) → a ≠ id →
      (st1 ← Page.configure o values st;
       Page.dispatch (Page.SwitchChange a) st1)
      = (st1 ← Page.dispatch (Page.SwitchChange a) st;
         Page.configure o values st1).
Proof.
  split.
  - simpl. unfold Page.persist, Page.setLocalStorage, Page.setIntegrations,
      setItem. simpl.
    rewrite !insert_insert_eq, <-!list_fmap_compose.
    rewrite (list_fmap_ext (Page.toggled b ∘ Page.toggled a)
               (Page.toggled a ∘ Page.toggled b) (Page.integrations st)); [done|].
    intros _ x _. apply toggled_toggled.
  - intros o id values Hid Hne. rewrite configure_unfold. simpl.
    rewrite configure_unfold. simpl.
    unfold Page.persist, Page.setLocalStorage, Page.setIntegrations,
      setItem. simpl.
    rewrite !insert_insert_eq, <-!list_fmap_compose.
    rewrite (list_fmap_ext (Page.toggled a ∘ Page.configured o values)
               (Page.configured o values ∘ Page.toggled a)
               (Page.integrations st)); [done|].
    intros _ x _. by apply (toggled_configured a id).
Qed.

Lemma switch_commutes_witness :
  (st1 ← Page.configure (default ∅ (Page.defaultIntegrations !! 0))
           (Json (JObj {[ "channel" := JStr "#feedback" ]})) Sample.fresh;
   Page.dispatch (Page.SwitchChange "email") st1)
  = (st1 ← Page.dispatch (Page.SwitchChange "email") Sample.fresh;
     Page.configure (default ∅ (Page.defaultIntegrations !! 0))
       (Json (JObj {[ "channel" := JStr "#feedback" ]})) st1).
Proof.
  apply (switch_commutes "email" "email" Sample.fresh) with (id := "slack");
    [reflexivity|discriminate].
Defined.

(** ** Loading, whatever is stored *)

Section any_store.

Import Page.

(** Whatever the callback returns for a template entry has the entry's id
    and icon. *)
Lemma from_saved_shape (j : json) (def o : object) (s : string) :
  def ∈ defaultIntegrations → get def "id" = Json (JStr s) →
  from_saved j def = Normal o →
  get o "id" = Json (JStr s) ∧ o !! "icon" = def !! "icon".
Proof.
  intros Hdef Hid. unfold from_saved, find_saved.
  destruct j as [| | | |items|]; simpl; try done.
  rewrite Hid. destruct (find_by_id items _) as [[i|]|] eqn:Hfind; simpl;
    try done.
  - apply find_by_id_found in Hfind as (r & -> & _ & Hr). simpl.
    intros [= <-]. split.
    + unfold get. rewrite merge_lookup_ne by done. by rewrite Hr.
    + rewrite merge_lookup_icon. symmetry. by apply template_icon.
  - by intros [= <-].
Qed.

(** What [loadIntegrations] returns lines up with the template. *)
Lemma loadIntegrations_lines_up (ls : Storage) :
  ∃ loaded,
    loadIntegrations ls = Normal loaded
    ∧ Forall2 (λ def o, get o "id" = get def "id" ∧ o !! "icon" = def !! "icon")
        defaultIntegrations loaded.
Proof.
  assert (Forall2 (λ def o : object,
                     get o "id" = get def "id" ∧ o !! "icon" = def !! "icon")
            defaultIntegrations defaultIntegrations) as Hsame.
  { by apply Forall_Forall2_diag, Forall_forall. }
  destruct (getItem ls "integrations_config") as [[| |j]|] eqn:H.
  1,2,4: by (exists defaultIntegrations; unfold loadIntegrations; rewrite H).
  rewrite (loadIntegrations_parsed ls j H).
  destruct (mapM (from_saved j) defaultIntegrations) as [loaded|] eqn:Hm;
    [|by exists defaultIntegrations].
  exists loaded. split; [done|].
  apply mapM_Normal_inv in Hm.
  apply Forall2_same_length_lookup_2; [by eapply Forall2_length|].
  intros i def o Hdef Ho.
  pose proof (Forall2_lookup_lr _ _ _ _ _ _ Hm Hdef Ho) as Hsaved.
  destruct (template_id_exists def) as (i' & s & Hi' & Hs);
    [by eapply list_elem_of_lookup_2|].
  pose proof (template_id _ _ _ Hi' Hs) as Hid. rewrite Hid.
  apply (from_saved_shape j); [by eapply list_elem_of_lookup_2|done..].
Qed.

End any_store.

(** X7. Whatever text localStorage holds, broken, foreign or hand-edited,
    [loadIntegrations] returns normally with one record per entry of the
    template, in the template's order, each with the id and the icon of
    its entry. *)
Theorem loadIntegrations_any_store (ls : Storage) :
  ∃ loaded,
    Page.loadIntegrations ls = Normal loaded
    ∧ (λ o, get o "id") <$> loaded = (λ s, Json (JStr s)) <$> Page.template_ids
    ∧ (λ o, o !! "icon") <$> loaded
      = (λ o, o !! "icon") <$> Page.defaultIntegrations.
Proof.
  destruct (loadIntegrations_lines_up ls) as (loaded & Hload & HF).
  exists loaded. split; [done|]. split.
  - change ((λ s, Json (JStr s)) <$> Page.template_ids)
      with ((λ o, get o "id") <$> Page.defaultIntegrations).
    apply Forall2_fmap_eq. eapply Forall2_impl; [exact HF|]. by intros ?? [? _].
  - apply Forall2_fmap_eq. eapply Forall2_impl; [exact HF|]. by intros ?? [_ ?].
Qed.


(** ** The menu and the routes *)

Section menu.

Import Auth Layout.

Lemma elem_of_baseMenuItems (user : option User) (item : MenuItem) :
  item ∈ baseMenuItems user
  ↔ item ∈ allMenuItems ∧ role_or_viewer user ∈ roles item.
Proof.
  unfold baseMenuItems.
  rewrite (list_elem_of_In (List.filter _ _)), filter_In, <-list_elem_of_In.
  by rewrite includes_elem_of, bool_decide_eq_true.
Qed.

Lemma elem_of_menuItems (user : option User) (item : MenuItem) :
  item ∈ menuItems user
  ↔ (item ∈ allMenuItems ∧ role_or_viewer user ∈ roles item)
    ∨ (item = adminMenuItem ∧ ∃ u, user = Some u ∧ role u = "admin").
Proof.
  unfold menuItems. destruct user as [u|].
  - destruct (String.eqb_spec (role u) "admin") as [Hr|Hr].
    + rewrite elem_of_app, elem_of_baseMenuItems, list_elem_of_singleton.
      split; [intros [?| ->]; [by left|right; split; [done|by exists u]]|].
      intros [?|[-> _]]; [by left|by right].
    + rewrite elem_of_baseMenuItems. split; [by left|].
      intros [?|[_ (u' & [= <-] & ?)]]; done.
  - rewrite elem_of_baseMenuItems. split; [by left|].
    intros [?|[_ (u' & ? & _)]]; done.
Qed.

Lemma role_or_viewer_role (u : User) (l : list string) :
  "viewer" ∉ l → role_or_viewer (Some u) ∈ l → role u ∈ l.
Proof.
  intros Hl. unfold role_or_viewer.
  by destruct (String.eqb (role u) EmptyString).
Qed.

End menu.

(** X9. The menu offers no dead ends: every entry the menu shows to a
    user, whatever the user's role and also without a user, leads to a
    route that renders its view for that user and redirects nowhere.  The
    Integrations entry is shown exactly to the users who may modify
    integrations. *)
Theorem menu_entries_render (user : option Auth.User) :
  (∀ item, item ∈ Layout.menuItems user →
     ∃ view, Auth.routes (Layout.path item) user = Auth.Fragment view)
  ∧ ((∃ item, item ∈ Layout.menuItems user
              ∧ Layout.path item = "/integrations")
     ↔ Auth.canModify user = true).
Proof.
  assert (∀ l : list string, "viewer" ∉ l →
            Layout.role_or_viewer user ∈ l →
            ∃ u, user = Some u ∧ Auth.role u ∈ l) as Hrole.
  { intros l Hl Hin. destruct user as [u|]; [|done].
    exists u. split; [done|]. by apply role_or_viewer_role. }
  split.
  - intros item [[Hitem Hr]|[ -> (u & -> & Hu)]]%elem_of_menuItems.
    + unfold Layout.allMenuItems in Hitem.
      repeat (apply elem_of_cons in Hitem as [->|Hitem]);
        try (by eexists); [|by apply elem_of_nil in Hitem].
      simpl in Hr. apply Hrole in Hr as (u & -> & Hu).
      * exists Auth.Integrations. cbn [Layout.path].
        change (Auth.routes "/integrations" (Some u))
          with (Auth.ProtectedRoute Auth.Integrations ["admin"; "analyst"] (Some u)).
        unfold Auth.ProtectedRoute.
        by rewrite includes_elem_of, bool_decide_eq_true_2.
      * rewrite !elem_of_cons. intros [?|[?|?%elem_of_nil]]; done.
    + exists Auth.AdminManagement. cbn [Layout.path Layout.adminMenuItem].
      change (Auth.routes "/admin" (Some u))
        with (Auth.ProtectedRoute Auth.AdminManagement ["admin"] (Some u)).
      unfold Auth.ProtectedRoute. rewrite Hu. reflexivity.
  - split.
    + intros (item & [[Hitem Hr]|[ -> _]]%elem_of_menuItems & Hpath); [|done].
      unfold Layout.allMenuItems in Hitem.
      repeat (apply elem_of_cons in Hitem as [->|Hitem]); try done;
        [|by apply elem_of_nil in Hitem].
      simpl in Hr. apply Hrole in Hr as (u & -> & Hu).
      * simpl. rewrite !elem_of_cons in Hu.
        destruct Hu as [->|[->|?%elem_of_nil]]; done.
      * rewrite !elem_of_cons. intros [?|[?|?%elem_of_nil]]; done.
    + intros Hmod. destruct user as [u|]; [|done]. simpl in Hmod.
      exists {| Layout.text := "Integrations";
                Layout.icon := Layout.IntegrationInstructions;
                Layout.path := "/integrations";
                Layout.roles := ["admin"; "analyst"] |}.
      split; [|done]. apply elem_of_menuItems. left. split.
      * apply list_elem_of_In. simpl. auto.
      * apply orb_true_iff in Hmod.
        rewrite !String.eqb_eq in Hmod. simpl. unfold Layout.role_or_viewer.
        destruct Hmod as [Hr|Hr]; rewrite Hr; simpl; rewrite !elem_of_cons; auto.
Qed.

(** X10. For a user with one of the three roles the menu is exact: an
    entry of the catalog (the five entries and the Admin entry) is shown
    if and only if its route renders its view for that user. *)
Theorem menu_is_exact (u : Auth.User) (item : Layout.MenuItem) :
  Auth.role u ∈ ["admin"; "analyst"; "viewer"] →
  item ∈ Layout.allMenuItems ++ [Layout.adminMenuItem] →
  item ∈ Layout.menuItems (Some u)
  ↔ ∃ view, Auth.routes (Layout.path item) (Some u) = Auth.Fragment view.
Proof.
  intros Hrole Hitem.
  unfold Layout.menuItems, Layout.baseMenuItems, Layout.role_or_viewer.
  rewrite !elem_of_cons in Hrole.
  unfold Layout.allMenuItems, Layout.adminMenuItem in Hitem. simpl in Hitem.
  repeat (apply elem_of_cons in Hitem as [->|Hitem]);
    [..|by apply elem_of_nil in Hitem].
  all: cbn [Layout.path]; unfold Auth.routes, Auth.ProtectedRoute; simpl.
  all: destruct Hrole as [Hr|[Hr|[Hr|Hr%elem_of_nil]]]; [..|done];
    rewrite Hr; simpl.
  all: first
    [ split; [intros _; by eexists|intros _; apply list_elem_of_In; simpl; tauto]
    | split; [intros H%list_elem_of_In; simpl in H; intuition discriminate
             |intros [? ?]; discriminate] ].
Qed.

Lemma menu_is_exact_witness :
  Layout.adminMenuItem ∈ Layout.menuItems (Some Sample.pending_admin)
  ↔ ∃ view, Auth.routes "/admin" (Some Sample.pending_admin) = Auth.Fragment view.
Proof.
  apply (menu_is_exact Sample.pending_admin Layout.adminMenuItem).
  - apply list_elem_of_In. simpl. auto.
  - apply list_elem_of_In. simpl. auto 10.
Defined.

(** X11. Redirects never loop.  From any path a loaded application comes
    to rest on a view after at most two redirects; a visitor who is not
    authenticated comes to rest on the login or the signup screen and
    never on a view of the dashboard, an authenticated session on one of
    the dashboard's views. *)
Theorem redirects_settle (isAuthenticated : bool) (user : option Auth.User)
    (path : string) :
  match App.settle 2 isAuthenticated user path with
  | Some (inl _) => isAuthenticated = false
  | Some (inr _) => isAuthenticated = true
  | None => False
  end.
Proof.
  destruct isAuthenticated.
  - cbn [App.settle App.App negb]. unfold Auth.routes.
    repeat match goal with
           | |- context [String.eqb path ?s] =>
               destruct (String.eqb path s); try done
           end.
    all: unfold Auth.ProtectedRoute; destruct user as [u|]; try done.
    all: destruct (includes _ _); done.
  - cbn [App.settle App.App negb].
    repeat match goal with
           | |- context [String.eqb path ?s] =>
               destruct (String.eqb path s); try done
           end.
Qed.

(** ** The profile page *)

(** X12. The password form guards the server: [handlePasswordChange]
    calls the server at most once, and just when the new password was
    typed the same twice and has six characters or more; the call then
    carries the current and the new password.  Without a call the typed
    passwords stay in the form and an error is shown; after a call that
    resolved the form is cleared.  Through the Update Password button, a
    call also never carries an empty current password. *)
Theorem password_change_guard (server : Profile.Call → Profile.Response)
    (st st' : Profile.State) (calls : list Profile.Call) :
  Profile.handlePasswordChange server st = (calls, st') →
  (calls = [] ∨ calls = [Profile.changePassword (Profile.currentPassword (Profile.passwordData st))
                           (Profile.newPassword (Profile.passwordData st))])
  ∧ (calls ≠ [] ↔ Profile.newPassword (Profile.passwordData st) = Profile.confirmPassword (Profile.passwordData st)
                  ∧ 6 ≤ String.length (Profile.newPassword (Profile.passwordData st)))
  ∧ (calls = [] →
     Profile.passwordData st' = Profile.passwordData st
     ∧ Profile.passwordSuccess st' = false
     ∧ truthy (Profile.passwordError st') = true)
  ∧ (calls ≠ [] →
     server (Profile.changePassword (Profile.currentPassword (Profile.passwordData st))
               (Profile.newPassword (Profile.passwordData st))) = Profile.Resolved →
     Profile.passwordSuccess st' = true
     ∧ Profile.passwordData st'
       = {| Profile.currentPassword := EmptyString;
            Profile.newPassword := EmptyString;
            Profile.confirmPassword := EmptyString |})
  ∧ (Profile.update_password_disabled st = false → calls ≠ [] →
     Profile.currentPassword (Profile.passwordData st) ≠ EmptyString)
  ∧ Profile.user st' = Profile.user st
  ∧ Profile.formData st' = Profile.formData st.
Proof.
  unfold Profile.handlePasswordChange. intros H.
  set (data := Profile.passwordData st) in *.
  destruct (String.eqb_spec (Profile.newPassword data)
              (Profile.confirmPassword data)) as [Heq|Hne]; simpl in H.
  - destruct (Nat.ltb_spec (String.length (Profile.newPassword data)) 6)
      as [Hlt|Hge].
    + injection H as <- <-.
      split; [by left|]. split; [split; [done|intros [_ ?]; lia]|].
      split; [done|]. split; [done|]. split; [done|]. done.
    + assert (Profile.update_password_disabled st = false →
              Profile.currentPassword data ≠ EmptyString) as Hbutton.
      { unfold Profile.update_password_disabled. fold data.
        intros Hd Hc. by rewrite Hc in Hd. }
      destruct (server _) eqn:Hs; injection H as <- <-.
      * split; [by right|]. split; [done|]. split; [done|].
        split; [done|]. split; [|done]. intros Hd _. by apply Hbutton.
      * split; [by right|]. split; [done|]. split; [done|].
        split; [done|]. split; [|done]. intros Hd _. by apply Hbutton.
  - injection H as <- <-.
    split; [by left|]. split; [split; [done|by intros [? _]]|].
    split; [done|]. split; [done|]. split; [done|]. done.
Qed.

Lemma password_change_guard_witness :
  Profile.passwordSuccess
    (snd (Profile.handlePasswordChange (λ _, Profile.Resolved)
            (Profile.setPasswordData
               {| Profile.currentPassword := "old-one";
                  Profile.newPassword := "longer";
                  Profile.confirmPassword := "longer" |}
               (Profile.initialState None))))
  = true.
Proof.
  destruct (password_change_guard (λ _, Profile.Resolved)
              (Profile.setPasswordData
                 {| Profile.currentPassword := "old-one";
                    Profile.newPassword := "longer";
                    Profile.confirmPassword := "longer" |}
                 (Profile.initialState None))
              _ _ eq_refl) as (_ & _ & _ & H & _).
  apply H; [discriminate|reflexivity].
Defined.

(** ** The feedback slice *)

Section slice.

Import FeedbackSlice.

Lemma findIndex_Some (id0 : string) (l : list Feedback) (i : nat) :
  findIndex id0 l = Some i
  ↔ ∃ f, l !! i = Some f ∧ id f = id0
         ∧ ∀ j g, l !! j = Some g → j < i → id g ≠ id0.
Proof.
  revert i. induction l as [|f l IH]; intros i; simpl.
  - split; [done|]. by intros (? & ? & _).
  - destruct (String.eqb_spec (id f) id0) as [Hf|Hf].
    + split.
      * intros [= <-]. exists f. split; [done|]. split; [done|]. intros; lia.
      * intros (g & Hi & Hg & Hmin). destruct i as [|i]; [done|].
        destruct (Hmin 0 f); [done|lia|done].
    + rewrite fmap_Some. split.
      * intros (k & Hk & ->). apply IH in Hk as (g & Hg & Hid & Hmin).
        exists g. split; [done|]. split; [done|].
        intros [|j] h Hj Hlt; simpl in Hj; [congruence|].
        apply (Hmin j); [done|lia].
      * intros (g & Hi & Hg & Hmin). destruct i as [|i]; simpl in Hi;
          [congruence|].
        exists i. split; [|done]. apply IH. exists g.
        split; [done|]. split; [done|].
        intros j h Hj Hlt. apply (Hmin (S j)); [done|lia].
Qed.

Lemma findIndex_None (id0 : string) (l : list Feedback) :
  findIndex id0 l = None ↔ ∀ f, f ∈ l → id f ≠ id0.
Proof.
  induction l as [|f l IH]; simpl.
  - split; [|done]. by intros _ f ?%elem_of_nil.
  - destruct (String.eqb_spec (id f) id0) as [Hf|Hf].
    + split; [done|]. intros H. destruct (H f); [by left|done].
    + rewrite fmap_None, IH. split.
      * intros H g [->|Hg]%elem_of_cons; [done|]. by apply H.
      * intros H g Hg. apply H. by right.
Qed.

End slice.

(** X13. [updateFeedback] replaces the first item that has the payload's
    id and nothing else: the order and the ids of the items, the total,
    the loading flag, the filters and the selected feedback (also when it
    is the item replaced) stay as they were; a payload whose id is not in
    the list changes nothing; applying the same update again changes
    nothing more; and right after [addFeedback] an update with the same
    id lands on the item just added. *)
Theorem updateFeedback_first_match (payload : FeedbackSlice.Feedback)
    (state : FeedbackSlice.FeedbackState) :
  let state' := FeedbackSlice.updateFeedback payload state in
  FeedbackSlice.id <$> FeedbackSlice.items state'
  = FeedbackSlice.id <$> FeedbackSlice.items state
  ∧ FeedbackSlice.total state' = FeedbackSlice.total state
  ∧ FeedbackSlice.selectedFeedback state' = FeedbackSlice.selectedFeedback state
  ∧ FeedbackSlice.loading state' = FeedbackSlice.loading state
  ∧ FeedbackSlice.filters state' = FeedbackSlice.filters state
  ∧ ((∀ f, f ∈ FeedbackSlice.items state →
           FeedbackSlice.id f ≠ FeedbackSlice.id payload) →
     state' = state)
  ∧ (∀ i f, FeedbackSlice.items state !! i = Some f →
            FeedbackSlice.id f = FeedbackSlice.id payload →
            (∀ j g, FeedbackSlice.items state !! j = Some g → j < i →
                    FeedbackSlice.id g ≠ FeedbackSlice.id payload) →
            FeedbackSlice.items state' = <[i := payload]> (FeedbackSlice.items state)
            ∧ FeedbackSlice.items state' !! i = Some payload)
  ∧ FeedbackSlice.updateFeedback payload state' = state'
  ∧ (∀ added, FeedbackSlice.id added = FeedbackSlice.id payload →
       FeedbackSlice.items
         (FeedbackSlice.updateFeedback payload
            (FeedbackSlice.addFeedback added state))
       = payload :: FeedbackSlice.items state).
Proof.
  intros state'. unfold state', FeedbackSlice.updateFeedback.
  destruct (FeedbackSlice.findIndex (FeedbackSlice.id payload)
              (FeedbackSlice.items state)) as [index|] eqn:Hfind.
  - pose proof Hfind as (f0 & Hindex & Hid0 & Hmin0)%findIndex_Some.
    assert (index < length (FeedbackSlice.items state)) as Hlt.
    { by eapply lookup_lt_Some. }
    cbn [FeedbackSlice.items FeedbackSlice.total FeedbackSlice.selectedFeedback
         FeedbackSlice.loading FeedbackSlice.filters].
    split.
    { rewrite list_fmap_insert, <-Hid0. apply list_insert_id.
      by rewrite list_lookup_fmap, Hindex. }
    split; [done|]. split; [done|]. split; [done|]. split; [done|].
    split.
    { intros Hnone. destruct (Hnone f0); [|done].
      by eapply list_elem_of_lookup_2. }
    split.
    { intros i f Hi Hid Hmin.
      assert (FeedbackSlice.findIndex (FeedbackSlice.id payload)
                (FeedbackSlice.items state) = Some i) as Hi'.
      { apply findIndex_Some. by exists f. }
      assert (i = index) as -> by congruence.
      split; [done|]. by apply list_lookup_insert_eq. }
    split.
    { assert (FeedbackSlice.findIndex (FeedbackSlice.id payload)
                (<[index := payload]> (FeedbackSlice.items state))
              = Some index) as ->.
      { apply findIndex_Some. exists payload.
        split; [by apply list_lookup_insert_eq|]. split; [done|].
        intros j g Hj Hjlt. rewrite list_lookup_insert_ne in Hj by lia.
        by apply (Hmin0 j). }
      cbn [FeedbackSlice.items]. by rewrite list_insert_insert_eq. }
    intros added Hadd. simpl.
    destruct (String.eqb_spec (FeedbackSlice.id added) (FeedbackSlice.id payload));
      done.
  - split; [done|]. split; [done|]. split; [done|]. split; [done|].
    split; [done|]. split; [done|]. split.
    { intros i f Hi Hid _. apply findIndex_None with (f := f) in Hfind;
        [done|]. by eapply list_elem_of_lookup_2. }
    split; [by rewrite Hfind|].
    intros added Hadd. simpl.
    destruct (String.eqb_spec (FeedbackSlice.id added) (FeedbackSlice.id payload));
      done.
Qed.
